(** * Checkout state manager and order message composer

    A shallow embedding of the checkout component ([Checkout], the second
    document of [src/tailwind.config.js]): the derived cart views, the
    handlers, the storage mirroring and the order message generator.

    JavaScript strings are modelled as byte strings (UTF-8 encoded), the
    [Record<string, string>] field value map as a [gmap string string], and
    JavaScript [Map]s, whose iteration order the code observes, as
    insertion-ordered association lists. *)

From Stdlib Require Import ZArith Ascii String.
From stdpp Require Import gmap strings list pretty.

Local Open Scope string_scope.
Local Open Scope list_scope.
Local Open Scope nat_scope.

(** ** JavaScript string primitives used by the component *)

Module JsString.

(** [s.startsWith(p)] *)
Fixpoint startsWith (p s : string) : bool :=
  match p, s with
  | EmptyString, _ => true
  | String a p', String b s' => if decide (a = b) then startsWith p' s' else false
  | String _ _, EmptyString => false
  end.

(** Worker of [split] for a non-empty separator: [skip] counts the
    characters of a separator occurrence that are still to be passed over,
    [cur] holds the piece being collected, in reverse. *)
Fixpoint split_go (sep : string) (skip : nat) (cur : string) (s : string)
  : list string :=
  match s with
  | EmptyString => [String.rev cur]
  | String c s' =>
      match skip with
      | S k => split_go sep k cur s'
      | O =>
          if startsWith sep s
          then String.rev cur :: split_go sep (String.length sep - 1) EmptyString s'
          else split_go sep O (String c cur) s'
      end
  end.

(** [s.split(sep)] for a non-empty separator [sep]. *)
Definition split (sep s : string) : list string := split_go sep 0 EmptyString s.

(** [parts.join(sep)] *)
Fixpoint join (sep : string) (parts : list string) : string :=
  match parts with
  | [] => EmptyString
  | [p] => p
  | p :: rest => p +:+ sep +:+ join sep rest
  end.

(** Number of non-overlapping occurrences of [sub] in [s], scanning from
    the left: [s.split(sub).length - 1]. *)
Definition occurrences (sub s : string) : nat := length (split sub s) - 1.

(** [s.includes(sub)] for a non-empty [sub]. *)
Definition includes (sub s : string) : bool := bool_decide (0 < occurrences sub s).

(** The white space that [trim] and [parseInt] strip, restricted to the
    ASCII range: TAB, LF, VT, FF, CR and SPACE. *)
Definition isWhiteSpace (c : ascii) : bool :=
  let n := nat_of_ascii c in
  bool_decide (n = 32 ∨ (9 ≤ n ∧ n ≤ 13)).

Fixpoint trimStart (s : string) : string :=
  match s with
  | String c s' => if isWhiteSpace c then trimStart s' else s
  | EmptyString => EmptyString
  end.

(** [s.trim()] *)
Definition trim (s : string) : string :=
  String.rev (trimStart (String.rev (trimStart s))).

(** Position of the last occurrence of the character [c] in [s], counted
    from [i], the position of the first character of [s]. *)
Fixpoint lastIndexOf_go (c : ascii) (i : nat) (s : string) : option nat :=
  match s with
  | EmptyString => None
  | String a s' =>
      match lastIndexOf_go c (S i) s' with
      | Some j => Some j
      | None => if decide (a = c) then Some i else None
      end
  end.

(** [s.lastIndexOf(c)] for a one-character [c]; [None] stands for [-1]. *)
Definition lastIndexOf (c : ascii) (s : string) : option nat := lastIndexOf_go c 0 s.

(** [s.substring(from, to)] with [from <= to]. *)
Definition substring (from to : nat) (s : string) : string :=
  String.substring from (to - from) s.

(** [s.substring(from)] *)
Definition substringFrom (from : nat) (s : string) : string :=
  String.substring from (String.length s - from) s.

(** [s.includes(c)] for a one-character [c]. *)
Fixpoint includesChar (c : ascii) (s : string) : bool :=
  match s with
  | String a s' => bool_decide (a = c) || includesChar c s'
  | EmptyString => false
  end.

(** A string is truthy when it is not empty. *)
Definition truthy (s : string) : bool := negb (bool_decide (s = EmptyString)).

(** [o || ''] and the truthiness of a [string | null | undefined]. *)
Definition orEmpty (o : option string) : string := default EmptyString o.
Definition truthyOpt (o : option string) : bool := truthy (orEmpty o).

End JsString.

(** ** JavaScript numbers as they occur in the component

    Array positions are natural numbers and [index.toString()] is stdpp's
    [pretty]; [parseInt(s, 10)] yields an integer, or [None] for [NaN]. *)

Module JsNumber.

Definition digit (c : ascii) : option N :=
  let n := N_of_ascii c in
  if bool_decide (48 ≤ n ∧ n ≤ 57)%N then Some (n - 48)%N else None.

(** Value of the longest prefix of decimal digits of [s], continuing from
    the value [acc] of the digits already read. *)
Fixpoint digits (acc : N) (s : string) : N :=
  match s with
  | String c s' =>
      match digit c with
      | Some d => digits (10 * acc + d) s'
      | None => acc
      end
  | EmptyString => acc
  end.

(** The string consists of decimal digits only. *)
Fixpoint allDigits (s : string) : bool :=
  match s with
  | String c s' => bool_decide (is_Some (digit c)) && allDigits s'
  | EmptyString => true
  end.

Definition startsWithDigit (s : string) : bool :=
  match s with
  | String c _ => bool_decide (is_Some (digit c))
  | EmptyString => false
  end.

Definition unsigned (s : string) : option Z :=
  if startsWithDigit s then Some (Z.of_N (digits 0 s)) else None.

(** [parseInt(s, 10)]: leading white space is skipped, one sign is
    accepted, the digits that follow are read and the rest is ignored;
    without a digit the result is [NaN]. *)
Definition parseInt (s : string) : option Z :=
  match JsString.trimStart s with
  | String "-" s' => Z.opp <$> unsigned s'
  | String "+" s' => unsigned s'
  | s' => unsigned s'
  end.

(** [arr[i]] for a number [i] that [parseInt] returned: negative positions
    and positions past the end are [undefined]. *)
Definition at_ {A} (arr : list A) (i : Z) : option A :=
  if bool_decide (0 ≤ i)%Z then arr !! Z.to_nat i else None.

End JsNumber.

(** ** JavaScript [Map]: an association list in insertion order *)

Module JsMap.
Section ops.
Context {V : Type}.

Definition has (k : string) (m : list (string * V)) : bool :=
  bool_decide (k ∈ m.*1).

Fixpoint get (k : string) (m : list (string * V)) : option V :=
  match m with
  | [] => None
  | (k', v) :: m' => if decide (k' = k) then Some v else get k m'
  end.

(** [m.set(k, v)]: an existing key keeps its place, a new one goes last. *)
Fixpoint set (k : string) (v : V) (m : list (string * V)) : list (string * V) :=
  match m with
  | [] => [(k, v)]
  | (k', v') :: m' =>
      if decide (k' = k) then (k, v) :: m' else (k', v') :: set k v m'
  end.

(** In-place mutation of the value stored under [k]. *)
Fixpoint update (k : string) (f : V → V) (m : list (string * V)) : list (string * V) :=
  match m with
  | [] => []
  | (k', v) :: m' =>
      if decide (k' = k) then (k', f v) :: m' else (k', v) :: update k f m'
  end.

Definition values (m : list (string * V)) : list V := m.*2.
End ops.
End JsMap.

(** ** A plain object whose property order is observed

    [bulkInputValues] is enumerated with [Object.entries]: array-index keys
    come first in ascending numeric order, the other keys follow in
    insertion order. *)

Module JsObject.

(** The array index a property key denotes, if it is one: a canonical
    decimal numeral below [2^32 - 1]. *)
Definition arrayIndex (k : string) : option N :=
  let n := JsNumber.digits 0 k in
  if bool_decide (pretty n = k ∧ (n < 4294967295)%N) then Some n else None.

Fixpoint insertByIndex (e : N * (string * string)) (l : list (N * (string * string)))
  : list (N * (string * string)) :=
  match l with
  | [] => [e]
  | e' :: l' => if bool_decide (e.1 ≤ e'.1)%N then e :: l else e' :: insertByIndex e l'
  end.

Definition indexed (o : list (string * string)) : list (N * (string * string)) :=
  omap (λ p, (λ n, (n, p)) <$> arrayIndex p.1) o.

Definition named (o : list (string * string)) : list (string * string) :=
  List.filter (λ p, bool_decide (arrayIndex p.1 = None)) o.

(** [Object.entries(o)] *)
Definition entries (o : list (string * string)) : list (string * string) :=
  (foldr insertByIndex [] (indexed o)).*2 ++ named o.

(** [{ ...o, [k]: v }] *)
Definition assign (k v : string) (o : list (string * string)) : list (string * string) :=
  JsMap.set k v o.

(** [o[k]] *)
Definition get (k : string) (o : list (string * string)) : option string :=
  JsMap.get k o.

End JsObject.

(** ** Data model

    The types [CartItem], [CustomField] and [OrderStatus] are imported from
    [../types], and the payment methods and orders come from hooks; none of
    these files is among the sources, so the records below follow the
    spec's data model and the fields the component reads. *)

Module CustomField.
(** Modelled from the spec: the type [CustomField] of [../types] (key,
    label, placeholder, required flag). *)
Record t := { key : string; label : string; placeholder : string; required : bool }.
End CustomField.

Module Variation.
(** Modelled from the spec: the selected variation of a cart item, of which
    the component reads the name. *)
Record t := { name : string }.
End Variation.

Module CartItem.
(** Modelled from the spec: the type [CartItem] of [../types] (identifier,
    display name, quantity, total price, optional selected variation,
    optional ordered list of custom fields). Prices and quantities are
    whole numbers here. *)
Record t := {
  id : string;
  name : string;
  quantity : Z;
  totalPrice : Z;
  selectedVariation : option Variation.t;
  customFields : option (list CustomField.t)
}.
End CartItem.

Module PaymentMethod.
(** Modelled from the spec: a payment method as [usePaymentMethods] returns
    it (identifier, display name, account number and name, optional QR
    image reference). *)
Record t := {
  uuid_id : string;
  name : string;
  account_number : string;
  account_name : string;
  qr_code_url : option string
}.
End PaymentMethod.

Module Order.
(** Modelled from the spec: an order as [useOrders] returns it; [status]
    holds an [OrderStatus], a string enumeration that includes ["approved"]
    and ["rejected"]. *)
Record t := { id : string; status : string }.
End Order.

#[global] Instance CustomField_eq_dec : EqDecision CustomField.t.
Proof. solve_decision. Defined.

(** ** Derived cart views *)

Definition CART_SEPARATOR : string := ":::CART:::".

(** Extract the original menu item id from a cart item id of the form
    [menuItemId:::CART:::timestamp-random]. *)
Definition getOriginalMenuItemId (cartItemId : string) : string :=
  let parts := JsString.split CART_SEPARATOR cartItemId in
  if bool_decide (1 < length parts) then default cartItemId (parts !! 0) else cartItemId.

(** [item.customFields && item.customFields.length > 0] *)
Definition hasFields (item : CartItem.t) : bool :=
  match CartItem.customFields item with
  | Some fs => bool_decide (0 < length fs)
  | None => false
  end.

(** [item.customFields?.length || 0] *)
Definition fieldCount (item : CartItem.t) : nat :=
  match CartItem.customFields item with
  | Some fs => length fs
  | None => 0
  end.

Definition originalIdOf (item : CartItem.t) : string :=
  getOriginalMenuItemId (CartItem.id item).

(** One turn of the loop that fills [uniqueItems]: an item is filed under
    its original id unless that id is taken. *)
Definition uniqueStep (uniqueItems : list (string * CartItem.t)) (item : CartItem.t)
  : list (string * CartItem.t) :=
  let originalId := getOriginalMenuItemId (CartItem.id item) in
  if JsMap.has originalId uniqueItems then uniqueItems
  else JsMap.set originalId item uniqueItems.

(** Items that carry custom fields, one per original menu item id (the
    first one met in the cart). *)
Definition itemsWithCustomFields (cartItems : list CartItem.t) : list CartItem.t :=
  let itemsWithFields := List.filter hasFields cartItems in
  let uniqueItems := foldl uniqueStep [] itemsWithFields in
  JsMap.values uniqueItems.

Definition hasAnyCustomFields (cartItems : list CartItem.t) : bool :=
  bool_decide (0 < length (itemsWithCustomFields cartItems)).

(** The key under which the form, the bulk fan-out, the validation and the
    order payload store the value of the field at position [fieldIndex]:
    [`${originalId}_${fieldIndex}_${field.key}`]. *)
Definition valueKey (originalId : string) (fieldIndex : nat) (fieldKey : string) : string :=
  originalId +:+ "_" +:+ pretty fieldIndex +:+ "_" +:+ fieldKey.

(** ** Exceptions

    [Throw] is a JavaScript exception that reaches the caller; [catch] is a
    [try { ... } catch { return d; }] around the computation. *)

Inductive Result (A : Type) : Type :=
  | Ok (a : A)
  | Throw.
Arguments Ok {A} a.
Arguments Throw {A}.

#[global] Instance Result_ret : MRet Result := λ A a, Ok a.
#[global] Instance Result_bind : MBind Result := λ A B f r,
  match r with
  | Ok a => f a
  | Throw => Throw
  end.

Definition catch {A} (r : Result A) (d : A) : A :=
  match r with
  | Ok a => a
  | Throw => d
  end.

(** ** Browser storage

    [localStorage] holds strings under string keys. Access may be denied by
    the browser, in which case every operation throws; a quota is not
    modelled. *)

Module Storage.
Record t := { accessible : bool; items : gmap string string }.

Definition getItem (k : string) (s : t) : Result (option string) :=
  if accessible s then Ok (items s !! k) else Throw.

Definition setItem (k v : string) (s : t) : Result t :=
  if accessible s then Ok {| accessible := true; items := <[k:=v]> (items s) |}
  else Throw.

Definition removeItem (k : string) (s : t) : Result t :=
  if accessible s then Ok {| accessible := true; items := delete k (items s) |}
  else Throw.
End Storage.

Module CHECKOUT_STORAGE_KEYS.
Definition paymentMethodUuid : string := "reina_checkout_paymentMethodUuid".
Definition customFieldValues : string := "reina_checkout_customFieldValues".
Definition receiptImageUrl : string := "reina_checkout_receiptImageUrl".
Definition receiptPreview : string := "reina_checkout_receiptPreview".
Definition bulkInputValues : string := "reina_checkout_bulkInputValues".
Definition bulkSelectedGames : string := "reina_checkout_bulkSelectedGames".
End CHECKOUT_STORAGE_KEYS.

Definition CURRENT_ORDER_ID : string := "current_order_id".

(** [JSON.stringify] and [JSON.parse] at the type a stored value is read
    back at; [JSON_parse] returns [None] where [JSON.parse] throws. *)
Class JsonCodec (A : Type) := {
  JSON_stringify : A → string;
  JSON_parse : string → option A
}.

(** What the component relies on for a value it stored itself: the text is
    not empty and parses back to the value. *)
Definition json_faithful `{JsonCodec A} (a : A) : Prop :=
  JSON_stringify a ≠ "" ∧ JSON_parse (JSON_stringify a) = Some a.

(** ** Component state (the [useState] cells of [Checkout])

    [receiptFile] keeps the name of the pending [File]. *)

Record CheckoutState := {
  paymentMethodUuid : option string;
  showPaymentDetailsModal : bool;
  customFieldValues : gmap string string;
  receiptFile : option string;
  receiptImageUrl : option string;
  receiptPreview : option string;
  receiptError : option string;
  copied : bool;
  hasCopiedMessage : bool;
  copiedAccountNumber : bool;
  copiedAccountName : bool;
  bulkInputValues : list (string * string);
  bulkSelectedGames : list string;
  orderId : option string;
  isOrderModalOpen : bool;
  isPlacingOrder : bool;
  existingOrderStatus : option string;
  isCheckingExistingOrder : bool
}.

Definition setCustomFieldValues (f : gmap string string → gmap string string)
    (st : CheckoutState) : CheckoutState :=
  let '(Build_CheckoutState pm sp cfv rf ru rp re cp hc can cam bv bs oi om ip es ic) := st in
  Build_CheckoutState pm sp (f cfv) rf ru rp re cp hc can cam bv bs oi om ip es ic.

Definition setReceiptFile (v : option string) (st : CheckoutState) : CheckoutState :=
  let '(Build_CheckoutState pm sp cfv rf ru rp re cp hc can cam bv bs oi om ip es ic) := st in
  Build_CheckoutState pm sp cfv v ru rp re cp hc can cam bv bs oi om ip es ic.

Definition setReceiptImageUrl (v : option string) (st : CheckoutState) : CheckoutState :=
  let '(Build_CheckoutState pm sp cfv rf ru rp re cp hc can cam bv bs oi om ip es ic) := st in
  Build_CheckoutState pm sp cfv rf v rp re cp hc can cam bv bs oi om ip es ic.

Definition setReceiptPreview (v : option string) (st : CheckoutState) : CheckoutState :=
  let '(Build_CheckoutState pm sp cfv rf ru rp re cp hc can cam bv bs oi om ip es ic) := st in
  Build_CheckoutState pm sp cfv rf ru v re cp hc can cam bv bs oi om ip es ic.

Definition setReceiptError (v : option string) (st : CheckoutState) : CheckoutState :=
  let '(Build_CheckoutState pm sp cfv rf ru rp re cp hc can cam bv bs oi om ip es ic) := st in
  Build_CheckoutState pm sp cfv rf ru rp v cp hc can cam bv bs oi om ip es ic.

Definition setHasCopiedMessage (v : bool) (st : CheckoutState) : CheckoutState :=
  let '(Build_CheckoutState pm sp cfv rf ru rp re cp hc can cam bv bs oi om ip es ic) := st in
  Build_CheckoutState pm sp cfv rf ru rp re cp v can cam bv bs oi om ip es ic.

Definition setBulkInputValues (f : list (string * string) → list (string * string))
    (st : CheckoutState) : CheckoutState :=
  let '(Build_CheckoutState pm sp cfv rf ru rp re cp hc can cam bv bs oi om ip es ic) := st in
  Build_CheckoutState pm sp cfv rf ru rp re cp hc can cam (f bv) bs oi om ip es ic.

Definition setBulkSelectedGames (f : list string → list string)
    (st : CheckoutState) : CheckoutState :=
  let '(Build_CheckoutState pm sp cfv rf ru rp re cp hc can cam bv bs oi om ip es ic) := st in
  Build_CheckoutState pm sp cfv rf ru rp re cp hc can cam bv (f bs) oi om ip es ic.

Definition setOrderId (v : option string) (st : CheckoutState) : CheckoutState :=
  let '(Build_CheckoutState pm sp cfv rf ru rp re cp hc can cam bv bs oi om ip es ic) := st in
  Build_CheckoutState pm sp cfv rf ru rp re cp hc can cam bv bs v om ip es ic.

Definition setIsOrderModalOpen (v : bool) (st : CheckoutState) : CheckoutState :=
  let '(Build_CheckoutState pm sp cfv rf ru rp re cp hc can cam bv bs oi om ip es ic) := st in
  Build_CheckoutState pm sp cfv rf ru rp re cp hc can cam bv bs oi v ip es ic.

Definition setIsPlacingOrder (v : bool) (st : CheckoutState) : CheckoutState :=
  let '(Build_CheckoutState pm sp cfv rf ru rp re cp hc can cam bv bs oi om ip es ic) := st in
  Build_CheckoutState pm sp cfv rf ru rp re cp hc can cam bv bs oi om v es ic.

Definition setExistingOrderStatus (v : option string) (st : CheckoutState) : CheckoutState :=
  let '(Build_CheckoutState pm sp cfv rf ru rp re cp hc can cam bv bs oi om ip es ic) := st in
  Build_CheckoutState pm sp cfv rf ru rp re cp hc can cam bv bs oi om ip v ic.

Definition setIsCheckingExistingOrder (v : bool) (st : CheckoutState) : CheckoutState :=
  let '(Build_CheckoutState pm sp cfv rf ru rp re cp hc can cam bv bs oi om ip es ic) := st in
  Build_CheckoutState pm sp cfv rf ru rp re cp hc can cam bv bs oi om ip es v.

(** ** Restoring and mirroring the state *)

Section persistence.
Context {codecValues : JsonCodec (gmap string string)}.
Context {codecBulk : JsonCodec (list (string * string))}.
Context {codecGames : JsonCodec (list string)}.

(** [const saved = localStorage.getItem(k); return saved ? JSON.parse(saved) : d;] *)
Definition readJson {A} `{JsonCodec A} (k : string) (d : A) (s : Storage.t) : Result A :=
  saved ← Storage.getItem k s;
  if JsString.truthyOpt saved then
    match JSON_parse (JsString.orEmpty saved) with
    | Some v => Ok v
    | None => Throw
    end
  else Ok d.

Definition init_paymentMethodUuid (s : Storage.t) : option string :=
  catch (Storage.getItem CHECKOUT_STORAGE_KEYS.paymentMethodUuid s) None.

Definition init_customFieldValues (s : Storage.t) : gmap string string :=
  catch (readJson CHECKOUT_STORAGE_KEYS.customFieldValues ∅ s) ∅.

(** The two receipt cells read the store outside any [try]. *)
Definition init_receiptImageUrl (s : Storage.t) : Result (option string) :=
  Storage.getItem CHECKOUT_STORAGE_KEYS.receiptImageUrl s.

Definition init_receiptPreview (s : Storage.t) : Result (option string) :=
  Storage.getItem CHECKOUT_STORAGE_KEYS.receiptPreview s.

Definition init_bulkInputValues (s : Storage.t) : list (string * string) :=
  catch (readJson CHECKOUT_STORAGE_KEYS.bulkInputValues [] s) [].

Definition init_bulkSelectedGames (s : Storage.t) : list string :=
  catch (readJson CHECKOUT_STORAGE_KEYS.bulkSelectedGames [] s) [].

(** The state of the first render: every [useState] initialiser, in the
    order of the source. *)
Definition initialState (s : Storage.t) : Result CheckoutState :=
  let pm := init_paymentMethodUuid s in
  let cfv := init_customFieldValues s in
  ru ← init_receiptImageUrl s;
  rp ← init_receiptPreview s;
  let bv := init_bulkInputValues s in
  let bs := init_bulkSelectedGames s in
  mret {|
    paymentMethodUuid := pm;
    showPaymentDetailsModal := false;
    customFieldValues := cfv;
    receiptFile := None;
    receiptImageUrl := ru;
    receiptPreview := rp;
    receiptError := None;
    copied := false;
    hasCopiedMessage := false;
    copiedAccountNumber := false;
    copiedAccountName := false;
    bulkInputValues := bv;
    bulkSelectedGames := bs;
    orderId := None;
    isOrderModalOpen := false;
    isPlacingOrder := false;
    existingOrderStatus := None;
    isCheckingExistingOrder := true
  |}.

(** [if (v) localStorage.setItem(k, v); else localStorage.removeItem(k);] *)
Definition mirrorString (k : string) (v : option string) (s : Storage.t) : Result Storage.t :=
  if JsString.truthyOpt v then Storage.setItem k (JsString.orEmpty v) s
  else Storage.removeItem k s.

(** The six persistence effects, in the order of the source. *)
Definition persist (st : CheckoutState) (s : Storage.t) : Result Storage.t :=
  s ← Storage.setItem CHECKOUT_STORAGE_KEYS.customFieldValues
        (JSON_stringify (customFieldValues st)) s;
  s ← mirrorString CHECKOUT_STORAGE_KEYS.receiptImageUrl (receiptImageUrl st) s;
  s ← mirrorString CHECKOUT_STORAGE_KEYS.receiptPreview (receiptPreview st) s;
  s ← Storage.setItem CHECKOUT_STORAGE_KEYS.bulkInputValues
        (JSON_stringify (bulkInputValues st)) s;
  s ← Storage.setItem CHECKOUT_STORAGE_KEYS.bulkSelectedGames
        (JSON_stringify (bulkSelectedGames st)) s;
  mirrorString CHECKOUT_STORAGE_KEYS.paymentMethodUuid (paymentMethodUuid st) s.

(** What a string cell holds after it was mirrored and read back: an empty
    string is removed from the store and comes back as [null]. *)
Definition stored (v : option string) : option string :=
  if JsString.truthyOpt v then v else None.

(** A page reload: the state is mirrored to the store and the component
    starts again from the store; the result is the state of the first
    render. *)
Definition reload (st : CheckoutState) (s : Storage.t) : Result CheckoutState :=
  s ← persist st s;
  initialState s.

End persistence.

(** ** Bulk input *)

(** The selected field-bearing items ([bulkSelectedGames] holds original
    menu item ids). *)
Definition selectedItems (cartItems : list CartItem.t) (bulkSelectedGames : list string)
  : list CartItem.t :=
  List.filter (λ item, bool_decide (getOriginalMenuItemId (CartItem.id item) ∈ bulkSelectedGames))
              (itemsWithCustomFields cartItems).

(** One bulk field per position, labelled after the first selected item. *)
Definition bulkInputFields (cartItems : list CartItem.t) (st : CheckoutState)
  : list (nat * option CustomField.t) :=
  if bool_decide (length (bulkSelectedGames st) = 0) then [] else
  let selectedItems := selectedItems cartItems (bulkSelectedGames st) in
  match selectedItems with
  | [] => []
  | referenceItem :: _ =>
      let maxFields := list_max (fieldCount <$> selectedItems) in
      if bool_decide (maxFields = 0) then [] else
      (λ i, (i, fs ← CartItem.customFields referenceItem; fs !! i)) <$> seq 0 maxFields
  end.

(** The assignments [updates[valueKey] = value] that the sync effect
    performs for one entry of [bulkInputValues]: one per selected item that
    has a field at the position the entry's key parses to. *)
Definition bulkWritesFor (cartItems selectedItems : list CartItem.t)
    (fieldIndexStr value : string) : list (string * string) :=
  match JsNumber.parseInt fieldIndexStr with
  | None => []
  | Some fieldIndex =>
      item ← selectedItems;
      match CartItem.customFields item ≫= (λ fs, JsNumber.at_ fs fieldIndex) with
      | Some field =>
          let originalId := getOriginalMenuItemId (CartItem.id item) in
          let actualItemIndex :=
            list_find (λ i, getOriginalMenuItemId (CartItem.id i) = originalId)
                      (itemsWithCustomFields cartItems) in
          match actualItemIndex with
          | Some _ => [(valueKey originalId (Z.to_nat fieldIndex) (CustomField.key field), value)]
          | None => []
          end
      | None => []
      end
  end.

(** All the assignments of the sync effect, in the order it performs them. *)
Definition bulkWrites (cartItems : list CartItem.t) (st : CheckoutState)
  : list (string * string) :=
  let selectedItems := selectedItems cartItems (bulkSelectedGames st) in
  entry ← JsObject.entries (bulkInputValues st);
  bulkWritesFor cartItems selectedItems entry.1 entry.2.

Definition bulkUpdates (cartItems : list CartItem.t) (st : CheckoutState) : gmap string string :=
  foldl (λ updates w, <[w.1 := w.2]> updates) ∅ (bulkWrites cartItems st).

(** The effect that fans the bulk values out to the selected items' fields:
    [setCustomFieldValues(prev => ({ ...prev, ...updates }))]. *)
Definition bulkSync (cartItems : list CartItem.t) (st : CheckoutState) : CheckoutState :=
  if bool_decide (length (bulkSelectedGames st) = 0) then st else
  let updates := bulkUpdates cartItems st in
  if bool_decide (0 < size updates) then setCustomFieldValues (λ prev, updates ∪ prev) st
  else st.

Definition handleBulkInputChange (fieldKey value : string) (st : CheckoutState) : CheckoutState :=
  setBulkInputValues (JsObject.assign fieldKey value) st.

Definition handleBulkGameSelectionChange (itemId : string) (checked : bool)
    (st : CheckoutState) : CheckoutState :=
  let originalId := getOriginalMenuItemId itemId in
  if checked then setBulkSelectedGames (λ prev, prev ++ [originalId]) st
  else setBulkSelectedGames (List.filter (λ id, negb (bool_decide (id = originalId)))) st.

(** The [onChange] of the input of the field at [fieldIndex] of [item]. *)
Definition handleFieldInput (item : CartItem.t) (fieldIndex : nat) (field : CustomField.t)
    (newValue : string) (st : CheckoutState) : CheckoutState :=
  let originalId := getOriginalMenuItemId (CartItem.id item) in
  let valueKey := valueKey originalId fieldIndex (CustomField.key field) in
  setCustomFieldValues (λ prev, <[valueKey := newValue]> prev) st.


Definition handleReceiptRemove (st : CheckoutState) : CheckoutState :=
  setHasCopiedMessage false
    (setReceiptError None
       (setReceiptPreview None
          (setReceiptImageUrl None
             (setReceiptFile None st)))).

(** ** What the component receives: its props and the hooks' results *)

Record Env := {
  cartItems : list CartItem.t;
  totalPrice : Z;
  paymentMethods : list PaymentMethod.t
}.

(** [paymentMethods.find(method => method.uuid_id === paymentMethodUuid)] *)
Definition selectedPaymentMethod (env : Env) (st : CheckoutState) : option PaymentMethod.t :=
  List.find (λ method, bool_decide (Some (PaymentMethod.uuid_id method) = paymentMethodUuid st))
            (paymentMethods env).

(** The identifiers of the payment methods are never empty: [uuid_id] is
    the [uuid NOT NULL] primary key of [payment_methods] (migration
    [20250120000000_make_payment_method_id_unique_per_admin_group.sql]). *)
Definition methodIdsPresent (env : Env) : Prop :=
  ∀ method, method ∈ paymentMethods env → PaymentMethod.uuid_id method ≠ "".

(** ** Order message composer *)

Definition LF : string := String (ascii_of_nat 10) EmptyString.

(** The filled fields of an item as the composer reads them: the value of a
    field is looked up under [`${originalId}_${field.key}`]. *)
Definition messageFields (values : gmap string string) (item : CartItem.t)
  : list (string * string) :=
  let originalId := getOriginalMenuItemId (CartItem.id item) in
  match CartItem.customFields item with
  | Some fs =>
      omap (λ field,
              let valueKey := originalId +:+ "_" +:+ CustomField.key field in
              let value := JsString.orEmpty (values !! valueKey) in
              if JsString.truthy value then Some (CustomField.label field, value) else None)
           fs
  | None => []
  end.

(** Games grouped by their label/value answers; an entry holds the names of
    its games and the answers they share. *)
Definition gamesByFieldValues (values : gmap string string) (items : list CartItem.t)
  : list (string * (list string * list (string * string))) :=
  foldl (λ groups item,
           let fields := messageFields values item in
           if bool_decide (length fields = 0) then groups else
           let valueKey := JsString.join "|" ((λ f, f.1 +:+ ":" +:+ f.2) <$> fields) in
           let groups :=
             if JsMap.has valueKey groups then groups
             else JsMap.set valueKey ([], fields) groups in
           JsMap.update valueKey (λ g, (g.1 ++ [CartItem.name item], g.2)) groups)
        [] items.

(** The lines a group contributes: its game names, then its answers. *)
Definition groupSections (games : list string) (fields : list (string * string))
  : list string :=
  if bool_decide (length games = 0 ∨ length fields = 0) then [] else
  let first := default "" (snd <$> fields !! 0) in
  let allValuesSame := forallb (λ f, bool_decide (f.2 = first)) fields in
  if allValuesSame && bool_decide (1 < length fields) then
    let labels := JsString.join ", " (fst <$> fields) in
    let combinedLabels :=
      match JsString.lastIndexOf "," labels with
      | Some lastCommaIndex =>
          if bool_decide (0 < lastCommaIndex) then
            JsString.substring 0 lastCommaIndex labels +:+ " &"
              +:+ JsString.substringFrom (lastCommaIndex + 1) labels
          else labels
      | None => labels
      end in
    [JsString.join LF games; combinedLabels +:+ ": " +:+ first]
  else
    [JsString.join LF games;
     JsString.join ", " ((λ f, f.1 +:+ ": " +:+ f.2) <$> fields)].

Definition customFieldsSection (env : Env) (st : CheckoutState) : string :=
  if hasAnyCustomFields (cartItems env) then
    let groups := gamesByFieldValues (customFieldValues st)
                    (itemsWithCustomFields (cartItems env)) in
    let sections := g ← groups; groupSections g.2.1 g.2.2 in
    if bool_decide (0 < length sections) then JsString.join LF sections else ""
  else
    "🎮 IGN: " +:+ JsString.orEmpty (customFieldValues st !! "default_ign").

Definition itemDetails (item : CartItem.t) : string :=
  let itemDetails := "• " +:+ CartItem.name item in
  let itemDetails :=
    match CartItem.selectedVariation item with
    | Some variation => itemDetails +:+ " (" +:+ Variation.name variation +:+ ")"
    | None => itemDetails
    end in
  itemDetails +:+ " x" +:+ pretty (CartItem.quantity item) +:+ " - ₱"
    +:+ pretty (CartItem.totalPrice item * CartItem.quantity item)%Z.

Definition generateOrderMessage (env : Env) (st : CheckoutState) : string :=
  JsString.trim
    (LF +:+ "🛒 Reina Shop ORDER" +:+ LF
     +:+ LF +:+ customFieldsSection env st +:+ LF
     +:+ LF +:+ "📋 ORDER DETAILS:" +:+ LF
     +:+ JsString.join LF (itemDetails <$> cartItems env) +:+ LF
     +:+ LF +:+ "💰 TOTAL: ₱" +:+ pretty (totalPrice env) +:+ LF
     +:+ LF +:+ "💳 Payment: "
     +:+ default "" (PaymentMethod.name <$> selectedPaymentMethod env st) +:+ LF
     +:+ LF +:+ "📸 Payment Receipt: " +:+ JsString.orEmpty (receiptImageUrl st) +:+ LF
     +:+ LF +:+ "Please confirm this order to proceed. Thank you for choosing Reina Shop! 🎮"
     +:+ LF +:+ "    ").

(** ** Validation of the customer details *)

(** [customFieldValues[k]?.trim() || false], as a condition. *)
Definition filled (values : gmap string string) (k : string) : bool :=
  match values !! k with
  | Some v => JsString.truthy (JsString.trim v)
  | None => false
  end.

Definition isDetailsValid (env : Env) (st : CheckoutState) : bool :=
  if negb (hasAnyCustomFields (cartItems env)) then filled (customFieldValues st) "default_ign"
  else
    forallb (λ item,
               match CartItem.customFields item with
               | None => true
               | Some fs =>
                   let originalId := getOriginalMenuItemId (CartItem.id item) in
                   forallb (λ b : bool, b)
                     (imap (λ fieldIndex field,
                              if negb (CustomField.required field) then true
                              else filled (customFieldValues st)
                                     (valueKey originalId fieldIndex (CustomField.key field)))
                           fs)
               end)
            (itemsWithCustomFields (cartItems env)).

(** ** Submission *)

Module Uri.
Definition hexDigit (n : N) : ascii :=
  if bool_decide (n < 10)%N then ascii_of_N (48 + n) else ascii_of_N (55 + n).

(** The characters [encodeURIComponent] leaves alone. *)
Definition unreserved (c : ascii) : bool :=
  let n := N_of_ascii c in
  bool_decide ((48 ≤ n ∧ n ≤ 57) ∨ (65 ≤ n ∧ n ≤ 90) ∨ (97 ≤ n ∧ n ≤ 122))%N
  || bool_decide (c ∈ ["-"; "_"; "."; "!"; "~"; "*"; "'"; "("; ")"]%char).

(** [encodeURIComponent(s)] on the UTF-8 bytes of [s]. *)
Fixpoint encodeURIComponent (s : string) : string :=
  match s with
  | EmptyString => EmptyString
  | String c s' =>
      if unreserved c then String c (encodeURIComponent s')
      else
        let n := N_of_ascii c in
        String "%" (String (hexDigit (n / 16)) (String (hexDigit (n mod 16))
          (encodeURIComponent s')))
  end.
End Uri.

(** The argument of [createOrder]. *)
Record OrderPayload := {
  order_items : list CartItem.t;
  customer_info : list (string * string);
  payment_method_id : string;
  receipt_url : string;
  total_price : Z
}.

(** What a handler does to the outside world. *)
Inductive Effect :=
  | WindowOpen (url target : string)
  | CreateOrder (payload : OrderPayload).

Definition handlePlaceOrder (env : Env) (st : CheckoutState) : CheckoutState * list Effect :=
  if negb (JsString.truthyOpt (paymentMethodUuid st)) then
    (setReceiptError (Some "Please select a payment method") st, [])
  else if negb (JsString.truthyOpt (receiptImageUrl st)) then
    (setReceiptError (Some "Please upload your payment receipt before placing the order") st, [])
  else
    let orderDetails := generateOrderMessage env st in
    let encodedMessage := Uri.encodeURIComponent orderDetails in
    let messengerUrl := "https://m.me/779999235186541?text=" +:+ encodedMessage in
    (st, [WindowOpen messengerUrl "_blank"]).

(** The [customer_info] of a direct order. *)
Definition customerInfo (env : Env) (st : CheckoutState) (method : PaymentMethod.t)
  : list (string * string) :=
  let customerInfo := JsObject.assign "Payment Method" (PaymentMethod.name method) [] in
  if hasAnyCustomFields (cartItems env) then
    foldl (λ customerInfo item,
             let originalId := getOriginalMenuItemId (CartItem.id item) in
             foldl (λ customerInfo '(fieldIndex, field),
                      let valueKey := valueKey originalId fieldIndex (CustomField.key field) in
                      let value := JsString.orEmpty (customFieldValues st !! valueKey) in
                      if JsString.truthy value
                      then JsObject.assign (CustomField.label field) value customerInfo
                      else customerInfo)
                   customerInfo
                   (imap (λ fieldIndex field, (fieldIndex, field))
                         (default [] (CartItem.customFields item))))
          customerInfo (itemsWithCustomFields (cartItems env))
  else
    let ign := JsString.orEmpty (customFieldValues st !! "default_ign") in
    if JsString.truthy ign then JsObject.assign "IGN" ign customerInfo else customerInfo.

Definition FAILED_TO_PLACE : string := "Failed to place order. Please try again.".

(** [createOrder] stands for the backend call: it returns the new order,
    [None] for [null], or throws. *)
Definition handlePlaceOrderDirect (env : Env)
    (createOrder : OrderPayload → Result (option Order.t))
    (st : CheckoutState) (storage : Storage.t)
  : CheckoutState * Storage.t * list Effect :=
  if negb (JsString.truthyOpt (paymentMethodUuid st)) then
    (setReceiptError (Some "Please select a payment method") st, storage, [])
  else if negb (JsString.truthyOpt (receiptImageUrl st)) then
    (setReceiptError (Some "Please upload your payment receipt before placing the order") st,
     storage, [])
  else
    match selectedPaymentMethod env st with
    | None => (setReceiptError (Some "Please select a payment method") st, storage, [])
    | Some method =>
        let st := setReceiptError None (setIsPlacingOrder true st) in
        let payload := {|
          order_items := cartItems env;
          customer_info := customerInfo env st method;
          payment_method_id := PaymentMethod.uuid_id method;
          receipt_url := JsString.orEmpty (receiptImageUrl st);
          total_price := totalPrice env
        |} in
        match createOrder payload with
        | Throw =>
            (setIsPlacingOrder false (setReceiptError (Some FAILED_TO_PLACE) st),
             storage, [CreateOrder payload])
        | Ok None => (setIsPlacingOrder false st, storage, [CreateOrder payload])
        | Ok (Some newOrder) =>
            let st := setExistingOrderStatus (Some (Order.status newOrder))
                        (setOrderId (Some (Order.id newOrder)) st) in
            match Storage.setItem CURRENT_ORDER_ID (Order.id newOrder) storage with
            | Ok storage =>
                (setIsPlacingOrder false (setIsOrderModalOpen true st),
                 storage, [CreateOrder payload])
            | Throw =>
                (setIsPlacingOrder false (setReceiptError (Some FAILED_TO_PLACE) st),
                 storage, [CreateOrder payload])
            end
        end
    end.

(** ** Existing-order recovery on mount *)

Definition checkExistingOrder (fetchOrderById : string → option Order.t)
    (st : CheckoutState) (storage : Storage.t) : Result (CheckoutState * Storage.t) :=
  storedOrderId ← Storage.getItem CURRENT_ORDER_ID storage;
  '(st, storage) ←
    (if JsString.truthyOpt storedOrderId then
       match fetchOrderById (JsString.orEmpty storedOrderId) with
       | Some order =>
           let st := setOrderId (Some (Order.id order))
                       (setExistingOrderStatus (Some (Order.status order)) st) in
           if bool_decide (Order.status order = "approved") then
             storage ← Storage.removeItem CURRENT_ORDER_ID storage;
             mret (setOrderId None (setExistingOrderStatus None st), storage)
           else mret (st, storage)
       | None =>
           storage ← Storage.removeItem CURRENT_ORDER_ID storage;
           mret (st, storage)
       end
     else mret (st, storage));
  mret (setIsCheckingExistingOrder false st, storage).

(** ** A concrete codec for the stored containers

    JSON restricted to what the component stores: flat objects and arrays
    of strings, written without white space; of the string escapes, those
    of the quotation mark and of the backslash. It instantiates [JsonCodec]
    wherever the model is run on concrete data. *)

Module FlatJson.

Definition quote : ascii := ascii_of_nat 34.
Definition backslash : ascii := ascii_of_nat 92.

Inductive token :=
  | TLBrace | TRBrace | TLBracket | TRBracket | TColon | TComma
  | TString (s : string).

Fixpoint escape (s : string) : string :=
  match s with
  | EmptyString => EmptyString
  | String c s' =>
      if bool_decide (c = quote ∨ c = backslash)
      then String backslash (String c (escape s'))
      else String c (escape s')
  end.

Definition quoted (s : string) : string :=
  String quote (escape s) +:+ String quote EmptyString.

(** The lexer: [inStr] holds the reversed text of the string literal being
    read, [esc] tells that the last character was a backslash. *)
Fixpoint lex (inStr : option string) (esc : bool) (s : string) : option (list token) :=
  match s with
  | EmptyString => match inStr with Some _ => None | None => Some [] end
  | String c s' =>
      match inStr with
      | None =>
          if bool_decide (c = quote) then lex (Some EmptyString) false s'
          else
            tok ← (if bool_decide (c = "{"%char) then Some TLBrace
                   else if bool_decide (c = "}"%char) then Some TRBrace
                   else if bool_decide (c = "["%char) then Some TLBracket
                   else if bool_decide (c = "]"%char) then Some TRBracket
                   else if bool_decide (c = ":"%char) then Some TColon
                   else if bool_decide (c = ","%char) then Some TComma
                   else None);
            cons tok <$> lex None false s'
      | Some buf =>
          if esc then
            if bool_decide (c = quote ∨ c = backslash)
            then lex (Some (String c buf)) false s'
            else None
          else if bool_decide (c = backslash) then lex (Some buf) true s'
          else if bool_decide (c = quote)
               then cons (TString (String.rev buf)) <$> lex None false s'
          else lex (Some (String c buf)) false s'
      end
  end.

Fixpoint members (ts : list token) : option (list (string * string)) :=
  match ts with
  | [TString k; TColon; TString v; TRBrace] => Some [(k, v)]
  | TString k :: TColon :: TString v :: TComma :: ts' => cons (k, v) <$> members ts'
  | _ => None
  end.

Fixpoint elements (ts : list token) : option (list string) :=
  match ts with
  | [TString x; TRBracket] => Some [x]
  | TString x :: TComma :: ts' => cons x <$> elements ts'
  | _ => None
  end.

Definition parseObject (s : string) : option (list (string * string)) :=
  ts ← lex None false s;
  match ts with
  | [TLBrace; TRBrace] => Some []
  | TLBrace :: ts' => ps ← members ts'; Some (foldl (λ o p, JsMap.set p.1 p.2 o) [] ps)
  | _ => None
  end.

Definition parseArray (s : string) : option (list string) :=
  ts ← lex None false s;
  match ts with
  | [TLBracket; TRBracket] => Some []
  | TLBracket :: ts' => elements ts'
  | _ => None
  end.

Definition stringifyObject (o : list (string * string)) : string :=
  "{" +:+ JsString.join "," ((λ p, quoted p.1 +:+ ":" +:+ quoted p.2) <$> o) +:+ "}".

Definition stringifyArray (l : list string) : string :=
  "[" +:+ JsString.join "," (quoted <$> l) +:+ "]".

#[export] Instance codecBulk : JsonCodec (list (string * string)) :=
  {| JSON_stringify := stringifyObject; JSON_parse := parseObject |}.

#[export] Instance codecGames : JsonCodec (list string) :=
  {| JSON_stringify := stringifyArray; JSON_parse := parseArray |}.

#[export] Instance codecValues : JsonCodec (gmap string string) :=
  {| JSON_stringify := λ m, stringifyObject (map_to_list m);
     JSON_parse := λ s, list_to_map <$> parseObject s |}.

End FlatJson.

(** ** Sample data on which the model is run *)

Module Sample.
Import FlatJson.

Definition field (k l : string) (r : bool) : CustomField.t :=
  {| CustomField.key := k; CustomField.label := l;
     CustomField.placeholder := ""; CustomField.required := r |}.

Definition item (i n : string) (fs : option (list CustomField.t)) : CartItem.t :=
  {| CartItem.id := i; CartItem.name := n; CartItem.quantity := 1;
     CartItem.totalPrice := 50; CartItem.selectedVariation := None;
     CartItem.customFields := fs |}.

Definition method (u n : string) : PaymentMethod.t :=
  {| PaymentMethod.uuid_id := u; PaymentMethod.name := n;
     PaymentMethod.account_number := "0917"; PaymentMethod.account_name := "Reina";
     PaymentMethod.qr_code_url := None |}.

(** A state right after mount over an empty store, with the given payment
    method, receipt reference and field values. *)
Definition state (pm ru : option string) (values : gmap string string) : CheckoutState :=
  {| paymentMethodUuid := pm; showPaymentDetailsModal := false;
     customFieldValues := values; receiptFile := None; receiptImageUrl := ru;
     receiptPreview := None; receiptError := None; copied := false;
     hasCopiedMessage := false; copiedAccountNumber := false;
     copiedAccountName := false; bulkInputValues := []; bulkSelectedGames := [];
     orderId := None; isOrderModalOpen := false; isPlacingOrder := false;
     existingOrderStatus := None; isCheckingExistingOrder := true |}.

Definition emptyStore : Storage.t := {| Storage.accessible := true; Storage.items := ∅ |}.

Definition IGN : CustomField.t := field "ign" "IGN" true.

(** Two games, each asking for the in-game name. *)
Definition gameA : CartItem.t := item "a:::CART:::1717-k3" "A" (Some [IGN]).
Definition gameB : CartItem.t := item "b:::CART:::1718-p9" "B" (Some [IGN]).

(** A game with two fields and a game with three. *)
Definition game2 : CartItem.t :=
  item "g2:::CART:::1721-a1" "Mobile Legends"
       (Some [field "uid" "User ID" true; field "zone" "Zone ID" true]).
Definition game3 : CartItem.t :=
  item "g3:::CART:::1722-b2" "Genshin Impact"
       (Some [field "uid" "UID" true; field "server" "Server" true; field "ign" "IGN" false]).

(** A top-up without custom fields. *)
Definition plain : CartItem.t := item "c:::CART:::1719-z1" "Diamonds" None.

Definition gcash : PaymentMethod.t := method "pm-1" "GCash".

Definition env (items : list CartItem.t) : Env :=
  {| cartItems := items; totalPrice := 100; paymentMethods := [gcash] |}.

(** A backend that accepts every order. *)
Definition backend (p : OrderPayload) : Result (option Order.t) :=
  Ok (Some {| Order.id := "o-1"; Order.status := "pending" |}).

End Sample.

(** ** The remaining cells, effects and handlers of [Checkout] *)

Definition setPaymentMethodUuid (v : option string) (st : CheckoutState) : CheckoutState :=
  let '(Build_CheckoutState pm sp cfv rf ru rp re cp hc can cam bv bs oi om ip es ic) := st in
  Build_CheckoutState v sp cfv rf ru rp re cp hc can cam bv bs oi om ip es ic.

Definition setShowPaymentDetailsModal (v : bool) (st : CheckoutState) : CheckoutState :=
  let '(Build_CheckoutState pm sp cfv rf ru rp re cp hc can cam bv bs oi om ip es ic) := st in
  Build_CheckoutState pm v cfv rf ru rp re cp hc can cam bv bs oi om ip es ic.

Definition setCopied (v : bool) (st : CheckoutState) : CheckoutState :=
  let '(Build_CheckoutState pm sp cfv rf ru rp re cp hc can cam bv bs oi om ip es ic) := st in
  Build_CheckoutState pm sp cfv rf ru rp re v hc can cam bv bs oi om ip es ic.

(** The effect that restores the payment method from the store once the
    payment methods are loaded; it reads the store outside any [try]. *)
Definition restorePaymentMethod (env : Env) (st : CheckoutState) (s : Storage.t)
  : Result CheckoutState :=
  saved ← Storage.getItem CHECKOUT_STORAGE_KEYS.paymentMethodUuid s;
  if JsString.truthyOpt saved && bool_decide (0 < length (paymentMethods env)) then
    match List.find (λ m, bool_decide (PaymentMethod.uuid_id m = JsString.orEmpty saved))
                    (paymentMethods env) with
    | Some method => mret (setPaymentMethodUuid (Some (PaymentMethod.uuid_id method)) st)
    | None => mret st
    end
  else mret st.

(** The [onClick] of the button of a payment method. *)
Definition selectPaymentMethod (method : PaymentMethod.t) (st : CheckoutState) : CheckoutState :=
  setShowPaymentDetailsModal true
    (setPaymentMethodUuid (Some (PaymentMethod.uuid_id method)) st).

(** What happens while [handleReceiptUpload] runs: the handler starts, the
    [FileReader] delivers the preview, and the upload succeeds or throws
    (with the message of the error, if it is an [Error]). The reader and the
    upload complete in either order. *)
Inductive UploadEvent :=
  | UploadStarted (file : string)
  | PreviewLoaded (dataUrl : string)
  | UploadSucceeded (url : string)
  | UploadFailed (message : option string).

Definition uploadStep (st : CheckoutState) (ev : UploadEvent) : CheckoutState :=
  match ev with
  | UploadStarted file => setReceiptFile (Some file) (setReceiptError None st)
  | PreviewLoaded dataUrl => setReceiptPreview (Some dataUrl) st
  | UploadSucceeded url => setReceiptImageUrl (Some url) st
  | UploadFailed message =>
      setReceiptPreview None
        (setReceiptFile None
           (setReceiptError (Some (default "Failed to upload receipt" message)) st))
  end.

(** [handleCopyMessage]: the text handed to the clipboard and the state
    after it; [written] tells whether [clipboard.writeText] succeeded. *)
Definition handleCopyMessage (env : Env) (written : bool) (st : CheckoutState)
  : CheckoutState * string :=
  let message := generateOrderMessage env st in
  if written then (setHasCopiedMessage true (setCopied true st), message)
  else (st, message).

(** The timer that [handleCopyMessage] sets: after two seconds the
    "Copied!" label goes away. *)
Definition copiedTimeout (st : CheckoutState) : CheckoutState := setCopied false st.



(** ** What the page shows and enables

    [uploading] is the [uploading] flag of [useImageUpload]. *)

(** The bulk section is rendered for two or more field-bearing items. *)
Definition showBulkSection (cartItems : list CartItem.t) : bool :=
  bool_decide (2 ≤ length (itemsWithCustomFields cartItems)).

(** The bulk inputs are rendered once games are selected. *)
Definition showBulkInputs (cartItems : list CartItem.t) (st : CheckoutState) : bool :=
  bool_decide (0 < length (bulkSelectedGames st))
  && bool_decide (0 < length (bulkInputFields cartItems st)).

Definition copyDisabled (uploading : bool) (st : CheckoutState) : bool :=
  uploading || negb (JsString.truthyOpt (paymentMethodUuid st))
  || negb (JsString.truthyOpt (receiptImageUrl st)).



Definition placeOrderDisabled (uploading : bool) (st : CheckoutState) : bool :=
  negb (JsString.truthyOpt (paymentMethodUuid st))
  || negb (JsString.truthyOpt (receiptImageUrl st))
  || uploading || isPlacingOrder st.

Definition placeOrderLabel (st : CheckoutState) : string :=
  if isPlacingOrder st then "Placing Order..."
  else if bool_decide (existingOrderStatus st = Some "rejected") then "Order Again"
  else "Place Order".

Definition messengerDisabled (uploading : bool) (st : CheckoutState) : bool :=
  negb (JsString.truthyOpt (paymentMethodUuid st))
  || negb (JsString.truthyOpt (receiptImageUrl st))
  || uploading || negb (hasCopiedMessage st).

(** ** The customer page ([MainApp] of [src/src/App.tsx]) *)

Module MainApp.

Inductive View := menu | cart | checkout.

#[global] Instance View_eq_dec : EqDecision View.
Proof. solve_decision. Defined.

Definition viewName (v : View) : string :=
  match v with
  | menu => "menu"
  | cart => "cart"
  | checkout => "checkout"
  end.

Definition CUSTOMER_VIEW_KEY : string := "reina_customer_view".
Definition CUSTOMER_CATEGORY_KEY : string := "reina_customer_category".
Definition CUSTOMER_SEARCH_KEY : string := "reina_customer_search".
Definition SKIP_SCROLL_RESTORE_KEY : string := "reina_skipScrollRestore".

Definition getInitialView (s : Storage.t) : View :=
  match Storage.getItem CUSTOMER_VIEW_KEY s with
  | Ok (Some v) =>
      if bool_decide (v = "menu") then menu
      else if bool_decide (v = "cart") then cart
      else if bool_decide (v = "checkout") then checkout
      else menu
  | _ => menu
  end.

Definition getInitialCategory (s : Storage.t) : string :=
  match Storage.getItem CUSTOMER_CATEGORY_KEY s with
  | Ok (Some c) => if bool_decide (c ≠ "") then c else "all"
  | _ => "all"
  end.

Definition getInitialSearch (s : Storage.t) : string :=
  match Storage.getItem CUSTOMER_SEARCH_KEY s with
  | Ok (Some q) => q
  | _ => ""
  end.

Record State := {
  currentView : View;
  selectedCategory : string;
  searchQuery : string
}.

Definition initialState (s : Storage.t) : State :=
  {| currentView := getInitialView s;
     selectedCategory := getInitialCategory s;
     searchQuery := getInitialSearch s |}.

(** [try { localStorage.setItem(k, v); } catch {}] *)
Definition trySetItem (k v : string) (s : Storage.t) : Storage.t :=
  catch (Storage.setItem k v s) s.

(** The three persistence effects. *)
Definition persist (st : State) (s : Storage.t) : Storage.t :=
  trySetItem CUSTOMER_SEARCH_KEY (searchQuery st)
    (trySetItem CUSTOMER_CATEGORY_KEY (selectedCategory st)
       (trySetItem CUSTOMER_VIEW_KEY (viewName (currentView st)) s)).

Definition handleViewChange (view : View) (st : State) : State :=
  {| currentView := view;
     selectedCategory := selectedCategory st;
     searchQuery := searchQuery st |}.

Definition handleCategoryClick (categoryId : string) (st : State) : State :=
  {| currentView := currentView st;
     selectedCategory := categoryId;
     searchQuery := "" |}.

Definition handleSearchChange (query : string) (st : State) : State :=
  {| currentView := currentView st;
     selectedCategory :=
       if bool_decide (JsString.trim query ≠ "") then "all" else selectedCategory st;
     searchQuery := query |}.

Definition handleItemAdded (st : State) (s : Storage.t) : State * Storage.t :=
  (handleViewChange cart st, trySetItem SKIP_SCROLL_RESTORE_KEY "true" s).

(** If on cart or checkout but the cart is empty, go back to the menu. *)
Definition emptyCartEffect (cartLength : nat) (st : State) : State :=
  if bool_decide ((currentView st = cart ∨ currentView st = checkout) ∧ cartLength = 0)
  then handleViewChange menu st else st.

(** If the popular category is selected but there are no popular items,
    show all. *)
Definition popularEffect (hasPopularItems : bool) (menuLength : nat) (st : State) : State :=
  if bool_decide (selectedCategory st = "popular") && negb hasPopularItems
     && bool_decide (0 < menuLength)
  then {| currentView := currentView st; selectedCategory := "all";
          searchQuery := searchQuery st |}
  else st.

(** Everything that changes the state of the page. *)
Inductive Action :=
  | ViewChange (view : View)
  | CategoryClick (categoryId : string)
  | SearchChange (query : string)
  | ItemAdded
  | EmptyCartEffect (cartLength : nat)
  | PopularEffect (hasPopularItems : bool) (menuLength : nat).

Definition step (st : State) (a : Action) : State :=
  match a with
  | ViewChange view => handleViewChange view st
  | CategoryClick categoryId => handleCategoryClick categoryId st
  | SearchChange query => handleSearchChange query st
  | ItemAdded => handleViewChange cart st
  | EmptyCartEffect n => emptyCartEffect n st
  | PopularEffect has n => popularEffect has n st
  end.

End MainApp.


(** The file input is rendered only while there is no preview. *)
Definition showUploadInput (st : CheckoutState) : bool :=
  negb (JsString.truthyOpt (receiptPreview st)).

(** * Properties *)

(** ** Sanity checks of the primitives *)

Example primitives_run :
  JsString.split ":::CART:::" "m1:::CART:::17-abc" = ["m1"; "17-abc"]
  ∧ JsString.split ":::CART:::" "m1" = ["m1"]
  ∧ JsString.split ":::CART:::" "a:::CART:::b:::CART:::c" = ["a"; "b"; "c"]
  ∧ JsString.lastIndexOf "," "A, B, C" = Some 4
  ∧ JsNumber.parseInt " -12px" = Some (-12)%Z
  ∧ JsNumber.parseInt "x1" = None
  ∧ JsObject.entries [("b", "1"); ("10", "2"); ("2", "3"); ("02", "4")]
     = [("2", "3"); ("10", "2"); ("b", "1"); ("02", "4")]
  ∧ valueKey "m1" 0 "ign" = "m1_0_ign"
  ∧ Uri.encodeURIComponent "IGN: X" = "IGN%3A%20X".
Proof. repeat split; vm_compute; reflexivity. Qed.

Example codec_runs :
  FlatJson.parseObject (FlatJson.stringifyObject [("a_0_ign", "X\Y"); ("k", "")])
    = Some [("a_0_ign", "X\Y"); ("k", "")]
  ∧ FlatJson.parseArray (FlatJson.stringifyArray ["a"; "b"]) = Some ["a"; "b"]
  ∧ FlatJson.parseObject "{}" = Some []
  ∧ FlatJson.parseObject "{oops" = None.
Proof. repeat split; vm_compute; reflexivity. Qed.

(** ** The setters touch one cell each *)

Section setters.
Variable st : CheckoutState.

Lemma setReceiptError_spec v :
  setReceiptError v st =
  {| paymentMethodUuid := paymentMethodUuid st;
     showPaymentDetailsModal := showPaymentDetailsModal st;
     customFieldValues := customFieldValues st;
     receiptFile := receiptFile st;
     receiptImageUrl := receiptImageUrl st;
     receiptPreview := receiptPreview st;
     receiptError := v;
     copied := copied st;
     hasCopiedMessage := hasCopiedMessage st;
     copiedAccountNumber := copiedAccountNumber st;
     copiedAccountName := copiedAccountName st;
     bulkInputValues := bulkInputValues st;
     bulkSelectedGames := bulkSelectedGames st;
     orderId := orderId st;
     isOrderModalOpen := isOrderModalOpen st;
     isPlacingOrder := isPlacingOrder st;
     existingOrderStatus := existingOrderStatus st;
     isCheckingExistingOrder := isCheckingExistingOrder st |}.
Proof. by destruct st. Qed.

Lemma customFieldValues_set f :
  customFieldValues (setCustomFieldValues f st) = f (customFieldValues st).
Proof. by destruct st. Qed.

Lemma bulkInputValues_set f :
  bulkInputValues (setBulkInputValues f st) = f (bulkInputValues st).
Proof. by destruct st. Qed.

Lemma bulkSelectedGames_setBulkInputValues f :
  bulkSelectedGames (setBulkInputValues f st) = bulkSelectedGames st.
Proof. by destruct st. Qed.

Lemma customFieldValues_setBulkInputValues f :
  customFieldValues (setBulkInputValues f st) = customFieldValues st.
Proof. by destruct st. Qed.
End setters.

(** ** Splitting at the cart separator *)

Section split.

Lemma append_cons (c : ascii) (s t : string) : String c s +:+ t = String c (s +:+ t).
Proof. reflexivity. Qed.

Lemma append_empty_l (s : string) : "" +:+ s = s.
Proof. reflexivity. Qed.

Lemma append_empty_r (s : string) : s +:+ "" = s.
Proof. induction s as [|c s IH]; [done|]. by rewrite append_cons, IH. Qed.

Lemma rev_app_append (cur acc s : string) :
  String.rev_app cur acc +:+ s = String.rev_app cur (acc +:+ s).
Proof. revert acc. induction cur as [|c cur IH]; intros acc; simpl; [done|apply IH]. Qed.

Lemma rev_cons_append (c : ascii) (cur s : string) :
  String.rev (String c cur) +:+ s = String.rev cur +:+ String c s.
Proof. unfold String.rev. simpl. by rewrite !rev_app_append. Qed.

Lemma startsWith_spec (p s : string) :
  JsString.startsWith p s = true ↔ ∃ r, s = p +:+ r.
Proof.
  revert s. induction p as [|a p IH]; intros s; simpl.
  - split; [intros _; by exists s|done].
  - destruct s as [|b s]; [split; [done|intros [r Hr]; done]|].
    destruct (decide (a = b)) as [->|Hne].
    + rewrite IH. split; intros [r Hr]; exists r.
      * by rewrite append_cons, Hr.
      * rewrite append_cons in Hr. congruence.
    + split; [done|]. intros [r Hr]. rewrite append_cons in Hr. congruence.
Qed.

Lemma split_go_not_nil (sep : string) (skip : nat) (cur s : string) :
  JsString.split_go sep skip cur s ≠ [].
Proof.
  revert skip cur. induction s as [|c s IH]; intros skip cur; simpl; [done|].
  destruct skip; [|apply IH].
  destruct (JsString.startsWith sep (String c s)); [done|apply IH].
Qed.

(** Without an occurrence of the separator the whole string is one piece. *)
Lemma split_go_absent (sep cur s : string) :
  (∀ p r, s ≠ p +:+ sep +:+ r) →
  JsString.split_go sep 0 cur s = [String.rev cur +:+ s].
Proof.
  revert cur. induction s as [|c s IH]; intros cur Habsent.
  - simpl. by rewrite append_empty_r.
  - simpl JsString.split_go.
    destruct (JsString.startsWith sep (String c s)) eqn:Hstart.
    + apply startsWith_spec in Hstart as [r Hr]. by destruct (Habsent "" r).
    + rewrite IH; [by rewrite rev_cons_append|].
      intros p r ->. by apply (Habsent (String c p) r).
Qed.

(** With a first occurrence of the separator after [p], the first piece is
    [p] and at least one more piece follows. *)
Lemma split_go_first (sep cur p r : string) :
  sep ≠ "" →
  (∀ p' r', p +:+ sep +:+ r = p' +:+ sep +:+ r' → String.length p ≤ String.length p') →
  ∃ rest, rest ≠ []
    ∧ JsString.split_go sep 0 cur (p +:+ sep +:+ r) = (String.rev cur +:+ p) :: rest.
Proof.
  intros Hsep. revert cur. induction p as [|c p IH]; intros cur Hfirst.
  - rewrite append_empty_l, append_empty_r.
    destruct sep as [|a sep]; [done|]. rewrite append_cons.
    simpl JsString.split_go.
    destruct (decide (a = a)); [|done].
    assert (JsString.startsWith sep (sep +:+ r) = true) as ->.
    { apply startsWith_spec. by exists r. }
    eexists. split; [apply split_go_not_nil|]. done.
  - rewrite append_cons. simpl JsString.split_go.
    destruct (JsString.startsWith sep (String c (p +:+ sep +:+ r))) eqn:Hstart.
    + apply startsWith_spec in Hstart as [r' Hr'].
      specialize (Hfirst "" r'). rewrite append_cons, append_empty_l in Hfirst.
      specialize (Hfirst Hr'). simpl in Hfirst. lia.
    + destruct (IH (String c cur)) as (rest & Hrest & Heq).
      { intros p' r' Heq. specialize (Hfirst (String c p') r').
        rewrite !append_cons, Heq in Hfirst. specialize (Hfirst eq_refl).
        simpl in Hfirst. lia. }
      exists rest. split; [done|]. by rewrite Heq, rev_cons_append.
Qed.

End split.

(** The original id is the text before the first separator. *)
Lemma getOriginalMenuItemId_first (p r : string) :
  (∀ p' r', p +:+ CART_SEPARATOR +:+ r = p' +:+ CART_SEPARATOR +:+ r' →
            String.length p ≤ String.length p') →
  getOriginalMenuItemId (p +:+ CART_SEPARATOR +:+ r) = p.
Proof.
  intros Hfirst. unfold getOriginalMenuItemId, JsString.split.
  destruct (split_go_first CART_SEPARATOR "" p r) as (rest & Hrest & ->); [done|done|].
  destruct rest as [|x rest]; [done|].
  case_bool_decide as Hlen; [done|]. simpl in Hlen. lia.
Qed.

(** An id without separator is its own original id. *)
Lemma getOriginalMenuItemId_absent (cartItemId : string) :
  (∀ p r, cartItemId ≠ p +:+ CART_SEPARATOR +:+ r) →
  getOriginalMenuItemId cartItemId = cartItemId.
Proof.
  intros Habsent. unfold getOriginalMenuItemId, JsString.split.
  rewrite split_go_absent by done. simpl. done.
Qed.

(** ** Decimal numerals: [toString] and [parseInt] *)

Section numerals.

Lemma digit_pretty_N_char (d : N) :
  (d < 10)%N → JsNumber.digit (pretty_N_char d) = Some d.
Proof.
  intros Hd.
  assert (d = 0 ∨ d = 1 ∨ d = 2 ∨ d = 3 ∨ d = 4 ∨ d = 5 ∨ d = 6 ∨ d = 7
          ∨ d = 8 ∨ d = 9)%N as Hcases by lia.
  repeat (destruct Hcases as [-> |Hcases]; [reflexivity|]). by subst.
Qed.

(** A digit is neither white space nor a sign nor an underscore. *)
Lemma digit_plain (c : ascii) :
  is_Some (JsNumber.digit c) →
  JsString.isWhiteSpace c = false ∧ c ≠ "-"%char ∧ c ≠ "+"%char ∧ c ≠ "_"%char.
Proof.
  destruct c as [[] [] [] [] [] [] [] []]; vm_compute; intros [d Hd];
    try discriminate Hd; repeat split; discriminate.
Qed.

(** The numeral of [x] put in front of [s] is a run of digits, not empty
    for a positive [x], whose value continues the digits read before. *)
Lemma pretty_N_go_digits (x : N) (s : string) :
  ∃ d, pretty_N_go x s = d +:+ s
    ∧ JsNumber.allDigits d = true
    ∧ ((0 < x)%N → d ≠ "")
    ∧ ∀ acc s', ∃ y, JsNumber.digits acc (d +:+ s') = JsNumber.digits y s'
                     ∧ (acc = 0%N → y = x).
Proof.
  revert s. induction (N.lt_wf_0 x) as [x _ IH]; intros s.
  assert (x = 0 ∨ 0 < x)%N as [-> |Hpos] by lia.
  - exists "". rewrite pretty_N_go_0.
    split; [done|]. split; [done|]. split; [lia|].
    intros acc s'. by exists acc.
  - rewrite pretty_N_go_step by done.
    destruct (IH (x `div` 10)%N) with (s := String (pretty_N_char (x `mod` 10)) s)
      as (d & Hd & Hall & _ & Hval).
    { by apply N.div_lt. }
    pose proof (digit_pretty_N_char (x `mod` 10)%N) as Hdigit.
    specialize (Hdigit ltac:(apply N.mod_lt; lia)).
    exists (d +:+ String (pretty_N_char (x `mod` 10)) "").
    assert (∀ t, (d +:+ String (pretty_N_char (x `mod` 10)) "") +:+ t
                 = d +:+ String (pretty_N_char (x `mod` 10)) t) as Hassoc.
    { intros t. clear. induction d as [|c d IHd]; [done|].
      by rewrite !append_cons, IHd. }
    split; [by rewrite Hassoc|]. split; [|split].
    + clear -Hall Hdigit. induction d as [|c d IHd]; simpl in *.
      * by rewrite Hdigit.
      * apply andb_true_iff in Hall as [-> Hall]. simpl. by apply IHd.
    + intros _. by destruct d.
    + intros acc s'. rewrite Hassoc.
      destruct (Hval acc (String (pretty_N_char (x `mod` 10)) s')) as (y & Hy & Hacc).
      exists (10 * y + x `mod` 10)%N. split.
      * rewrite Hy. simpl. by rewrite Hdigit.
      * intros Hzero. rewrite (Hacc Hzero). symmetry. apply N.div_mod. lia.
Qed.

(** The numeral of a natural number is a non-empty run of digits whose
    value is the number. *)
Lemma pretty_nat_digits (i : nat) :
  JsNumber.allDigits (pretty i) = true
  ∧ pretty i ≠ ""
  ∧ ∀ s', JsNumber.digits 0 (pretty i +:+ s') = JsNumber.digits (N.of_nat i) s'.
Proof.
  unfold pretty, pretty_nat, pretty, pretty_N.
  destruct (decide (N.of_nat i = 0%N)) as [Hz|Hnz].
  - rewrite Hz. repeat split; try done.
  - destruct (pretty_N_go_digits (N.of_nat i) "") as (d & Hd & Hall & Hne & Hval).
    rewrite Hd, append_empty_r. split; [done|]. split; [apply Hne; lia|].
    intros s'. destruct (Hval 0%N s') as (y & Hy & Hacc). by rewrite Hy, Hacc.
Qed.

Lemma parseInt_pretty (i : nat) : JsNumber.parseInt (pretty i) = Some (Z.of_nat i).
Proof.
  destruct (pretty_nat_digits i) as (Hall & Hne & Hval).
  specialize (Hval ""). rewrite append_empty_r in Hval.
  unfold JsNumber.parseInt. destruct (pretty i) as [|c s] eqn:Hs; [done|].
  simpl in Hall. apply andb_true_iff in Hall as [Hc%bool_decide_eq_true _].
  destruct (digit_plain c Hc) as (Hws & Hminus & Hplus & _).
  simpl. rewrite Hws.
  assert (JsNumber.unsigned (String c s) = Some (Z.of_nat i)) as Hu.
  { unfold JsNumber.unsigned. simpl. rewrite bool_decide_eq_true_2 by done.
    simpl in Hval. rewrite Hval. simpl. by rewrite nat_N_Z. }
  destruct c as [[] [] [] [] [] [] [] []]; try done.
Qed.

Lemma at_of_nat {A} (l : list A) (i : nat) : JsNumber.at_ l (Z.of_nat i) = l !! i.
Proof.
  unfold JsNumber.at_. rewrite bool_decide_eq_true_2 by lia. by rewrite Nat2Z.id.
Qed.

End numerals.

(** ** Deduplication by original id *)

Section dedupe.

Lemma JsMap_has_spec {V} (k : string) (m : list (string * V)) :
  JsMap.has k m = true ↔ k ∈ m.*1.
Proof. unfold JsMap.has. apply bool_decide_eq_true. Qed.

Lemma JsMap_set_fresh {V} (k : string) (v : V) (m : list (string * V)) :
  k ∉ m.*1 → JsMap.set k v m = m ++ [(k, v)].
Proof.
  induction m as [|[k' v'] m IH]; intros Hfresh; simpl; [done|].
  rewrite fmap_cons, not_elem_of_cons in Hfresh. destruct Hfresh as [Hne Hfresh].
  destruct (decide (k' = k)); [by subst|]. by rewrite IH.
Qed.

Lemma uniqueStep_fold (l : list CartItem.t) (m : list (string * CartItem.t)) :
  NoDup m.*1 → Forall (λ p, p.1 = originalIdOf p.2) m →
  let m' := foldl uniqueStep m l in
  NoDup m'.*1
  ∧ Forall (λ p, p.1 = originalIdOf p.2) m'
  ∧ (∀ k, k ∈ m'.*1 ↔ k ∈ m.*1 ∨ k ∈ originalIdOf <$> l)
  ∧ (∀ p, p ∈ m' → p ∈ m ∨ p.2 ∈ l).
Proof.
  revert m. induction l as [|item l IH]; intros m Hnd Hfiled; simpl.
  - split; [done|]. split; [done|]. split; [|by left].
    intros k. split; [by left|]. intros [?|Hin]; [done|]. by apply elem_of_nil in Hin.
  - assert (NoDup (uniqueStep m item).*1
            ∧ Forall (λ p, p.1 = originalIdOf p.2) (uniqueStep m item)
            ∧ (∀ k, k ∈ (uniqueStep m item).*1 ↔ k ∈ m.*1 ∨ k = originalIdOf item)
            ∧ (∀ p, p ∈ uniqueStep m item → p ∈ m ∨ p.2 = item))
      as (Hnd' & Hfiled' & Hkeys' & Hvals').
    { unfold uniqueStep. fold (originalIdOf item).
      destruct (JsMap.has (originalIdOf item) m) eqn:Hhas.
      - apply JsMap_has_spec in Hhas.
        split; [done|]. split; [done|]. split; [|by left].
        intros k. split; [by left|]. intros [?| ->]; done.
      - assert (originalIdOf item ∉ m.*1) as Hfresh.
        { intros Hin. apply JsMap_has_spec in Hin. congruence. }
        rewrite JsMap_set_fresh by done. rewrite fmap_app. simpl.
        split; [|split; [|split]].
        + apply NoDup_app. split; [done|]. split; [|apply NoDup_singleton].
          intros k Hk ->%list_elem_of_singleton. done.
        + apply Forall_app. split; [done|]. by apply Forall_singleton.
        + intros k. rewrite elem_of_app, list_elem_of_singleton. done.
        + intros p Hp.
          apply elem_of_app in Hp as [?| ->%list_elem_of_singleton]; [by left|by right]. }
    destruct (IH _ Hnd' Hfiled') as (Hnd'' & Hfiled'' & Hkeys'' & Hvals'').
    split; [done|]. split; [done|]. split.
    + intros k. rewrite Hkeys'', Hkeys', elem_of_cons. tauto.
    + intros p Hp. apply Hvals'' in Hp as [Hp|Hp].
      * apply Hvals' in Hp as [?| ->]; [by left|]. right. by left.
      * right. by right.
Qed.

(** The field-bearing view holds one item per original id, each taken from
    the cart and carrying fields, and misses no original id of a
    field-bearing cart item. *)
Lemma itemsWithCustomFields_spec (cartItems : list CartItem.t) :
  NoDup (originalIdOf <$> itemsWithCustomFields cartItems)
  ∧ (∀ item, item ∈ itemsWithCustomFields cartItems →
       item ∈ cartItems ∧ hasFields item = true)
  ∧ (∀ item, item ∈ cartItems → hasFields item = true →
       originalIdOf item ∈ originalIdOf <$> itemsWithCustomFields cartItems).
Proof.
  unfold itemsWithCustomFields, JsMap.values. cbv zeta.
  destruct (uniqueStep_fold (List.filter hasFields cartItems) [])
    as (Hnd & Hfiled & Hkeys & Hvals); [constructor|constructor|].
  set (m := foldl uniqueStep [] (List.filter hasFields cartItems)) in *.
  assert (originalIdOf <$> m.*2 = m.*1) as Hids.
  { clear -Hfiled. induction Hfiled as [|[k v] m Hkv _ IH]; [done|].
    rewrite !fmap_cons. simpl in *. by rewrite IH, Hkv. }
  rewrite Hids. split; [done|]. split.
  - intros item Hitem. apply list_elem_of_fmap in Hitem as ([k v] & -> & Hp).
    apply Hvals in Hp as [Hp|Hp]; [by apply elem_of_nil in Hp|].
    simpl in Hp. apply list_elem_of_In, filter_In in Hp as [Hin Hf].
    by apply list_elem_of_In in Hin.
  - intros item Hin Hf. apply Hkeys. right. apply list_elem_of_fmap.
    exists item. split; [done|]. apply list_elem_of_In, filter_In.
    split; [by apply list_elem_of_In|done].
Qed.

End dedupe.

(** ** Original menu item ids *)

(** C10. The original menu item id of a cart item id is the text before
    the first separator, and the id itself when there is no separator. The
    grouping, the keying and the bulk selection go through this extraction:
    the field-bearing view holds exactly one item per original id, and the
    form keys, the selection toggle and the set of selected items depend on
    a cart item only through its original id. *)
Theorem original_menu_item_id_extraction (cartItems : list CartItem.t) :
  (∀ p r,
     (∀ p' r', p +:+ CART_SEPARATOR +:+ r = p' +:+ CART_SEPARATOR +:+ r' →
               String.length p ≤ String.length p') →
     getOriginalMenuItemId (p +:+ CART_SEPARATOR +:+ r) = p)
  ∧ (∀ cartItemId,
       (∀ p r, cartItemId ≠ p +:+ CART_SEPARATOR +:+ r) →
       getOriginalMenuItemId cartItemId = cartItemId)
  ∧ NoDup ((λ item, getOriginalMenuItemId (CartItem.id item))
             <$> itemsWithCustomFields cartItems)
  ∧ (∀ item, item ∈ cartItems → hasFields item = true →
       ∃ item', item' ∈ itemsWithCustomFields cartItems
         ∧ getOriginalMenuItemId (CartItem.id item')
           = getOriginalMenuItemId (CartItem.id item))
  ∧ (∀ item1 item2 fieldIndex field value st,
       getOriginalMenuItemId (CartItem.id item1) = getOriginalMenuItemId (CartItem.id item2) →
       handleFieldInput item1 fieldIndex field value st
       = handleFieldInput item2 fieldIndex field value st)
  ∧ (∀ itemId1 itemId2 checked st,
       getOriginalMenuItemId itemId1 = getOriginalMenuItemId itemId2 →
       handleBulkGameSelectionChange itemId1 checked st
       = handleBulkGameSelectionChange itemId2 checked st)
  ∧ (∀ bulkSelectedGames item,
       item ∈ selectedItems cartItems bulkSelectedGames ↔
       item ∈ itemsWithCustomFields cartItems
       ∧ getOriginalMenuItemId (CartItem.id item) ∈ bulkSelectedGames).
Proof.
  destruct (itemsWithCustomFields_spec cartItems) as (Hnd & Hsub & Hall).
  split; [exact getOriginalMenuItemId_first|].
  split; [exact getOriginalMenuItemId_absent|].
  split; [exact Hnd|]. split; [|split; [|split]].
  - intros item Hin Hf. specialize (Hall item Hin Hf).
    apply list_elem_of_fmap in Hall as (item' & Heq & Hin'). by exists item'.
  - intros item1 item2 fieldIndex field value st Heq.
    unfold handleFieldInput. by rewrite Heq.
  - intros itemId1 itemId2 checked st Heq.
    unfold handleBulkGameSelectionChange. by rewrite Heq.
  - intros bs item. unfold selectedItems.
    rewrite list_elem_of_In, filter_In, bool_decide_eq_true, <- list_elem_of_In. done.
Qed.

Lemma original_menu_item_id_witness :
  getOriginalMenuItemId "m1:::CART:::1717-k3" = "m1"
  ∧ handleBulkGameSelectionChange "m1:::CART:::1717-k3" true (Sample.state None None ∅)
    = handleBulkGameSelectionChange "m1:::CART:::1800-z7" true (Sample.state None None ∅).
Proof.
  destruct (original_menu_item_id_extraction []) as (Hfirst & _ & _ & _ & _ & Hsel & _).
  split.
  - apply (Hfirst "m1" "1717-k3").
    intros [|c [|c' p']] r' Heq; [discriminate Heq|discriminate Heq|simpl; lia].
  - apply Hsel. vm_compute. reflexivity.
Defined.

(** ** The composite key separates positions and items *)

Section keys.

Lemma append_assoc (a b c : string) : (a +:+ b) +:+ c = a +:+ (b +:+ c).
Proof. induction a as [|x a IH]; [done|]. by rewrite !append_cons, IH. Qed.

Lemma append_length (a b : string) :
  String.length (a +:+ b) = String.length a + String.length b.
Proof. induction a as [|x a IH]; [done|]. rewrite append_cons. simpl. by rewrite IH. Qed.

Lemma append_inv_tail (a b t : string) : a +:+ t = b +:+ t → a = b.
Proof.
  revert b. induction a as [|x a IH]; intros [|y b] Heq; [done| | |].
  - rewrite append_empty_l, append_cons in Heq.
    apply (f_equal String.length) in Heq. simpl in Heq. rewrite append_length in Heq. lia.
  - rewrite append_empty_l, append_cons in Heq.
    apply (f_equal String.length) in Heq. simpl in Heq. rewrite append_length in Heq. lia.
  - rewrite !append_cons in Heq. injection Heq as -> Heq. by rewrite (IH b Heq).
Qed.

Lemma includesChar_append (c : ascii) (a b : string) :
  JsString.includesChar c (a +:+ b) = JsString.includesChar c a || JsString.includesChar c b.
Proof.
  induction a as [|x a IH]; [done|]. rewrite append_cons. simpl.
  by rewrite IH, orb_assoc.
Qed.

Lemma allDigits_no_underscore (d : string) :
  JsNumber.allDigits d = true → JsString.includesChar "_" d = false.
Proof.
  induction d as [|c d IH]; [done|]. simpl.
  intros [Hc%bool_decide_eq_true Hd]%andb_true_iff.
  destruct (digit_plain c Hc) as (_ & _ & _ & Hne).
  rewrite bool_decide_eq_false_2 by done. by apply IH.
Qed.

(** Two texts cut at their first underscore agree part by part. *)
Lemma first_underscore_split (a b r1 r2 : string) :
  JsString.includesChar "_" a = false →
  JsString.includesChar "_" b = false →
  a +:+ String "_" r1 = b +:+ String "_" r2 →
  a = b ∧ r1 = r2.
Proof.
  revert b. induction a as [|x a IH]; intros [|y b] Ha Hb Heq.
  - rewrite !append_empty_l in Heq. by injection Heq as ->.
  - rewrite append_empty_l, append_cons in Heq. injection Heq as <- _.
    by simpl in Hb.
  - rewrite append_empty_l, append_cons in Heq. injection Heq as -> _.
    by simpl in Ha.
  - rewrite !append_cons in Heq. injection Heq as -> Heq.
    simpl in Ha, Hb. apply orb_false_iff in Ha as [_ Ha]. apply orb_false_iff in Hb as [_ Hb].
    destruct (IH b Ha Hb Heq) as [-> ->]. done.
Qed.

(** Two texts cut at their last underscore agree part by part. *)
Lemma last_underscore_split (a b d1 d2 : string) :
  JsString.includesChar "_" d1 = false →
  JsString.includesChar "_" d2 = false →
  a +:+ String "_" d1 = b +:+ String "_" d2 →
  a = b ∧ d1 = d2.
Proof.
  revert b. induction a as [|x a IH]; intros [|y b] H1 H2 Heq.
  - rewrite !append_empty_l in Heq. by injection Heq as ->.
  - rewrite append_empty_l, append_cons in Heq. injection Heq as _ Heq.
    rewrite Heq, includesChar_append in H1. simpl in H1.
    by rewrite orb_true_r in H1.
  - rewrite append_empty_l, append_cons in Heq. injection Heq as _ Heq.
    rewrite <- Heq, includesChar_append in H2. simpl in H2.
    by rewrite orb_true_r in H2.
  - rewrite !append_cons in Heq. injection Heq as -> Heq.
    destruct (IH b H1 H2 Heq) as [-> ->]. done.
Qed.

(** Under the composite key, two fields with the same field key share an
    entry only if they sit at the same position of the same original item. *)
Lemma valueKey_inj_same_key (id1 id2 : string) (i j : nat) (k : string) :
  valueKey id1 i k = valueKey id2 j k → id1 = id2 ∧ i = j.
Proof.
  unfold valueKey. intros Heq.
  rewrite <- !(append_assoc (pretty _) "_" k) in Heq.
  rewrite <- !(append_assoc "_" (pretty _ +:+ "_") k) in Heq.
  rewrite <- !(append_assoc _ ("_" +:+ pretty _ +:+ "_") k) in Heq.
  apply append_inv_tail in Heq.
  rewrite <- !(append_assoc "_" (pretty _) "_") in Heq.
  rewrite <- !(append_assoc _ ("_" +:+ pretty _) "_") in Heq.
  apply append_inv_tail in Heq.
  destruct (pretty_nat_digits i) as (Hi & _ & _), (pretty_nat_digits j) as (Hj & _ & _).
  apply last_underscore_split in Heq as [-> Hij]; [|by apply allDigits_no_underscore..].
  split; [done|]. by apply (inj pretty).
Qed.

(** When the original ids contain no underscore, the composite key
    determines the item, the position and the field key. *)
Lemma valueKey_inj (id1 id2 : string) (i j : nat) (k1 k2 : string) :
  JsString.includesChar "_" id1 = false →
  JsString.includesChar "_" id2 = false →
  valueKey id1 i k1 = valueKey id2 j k2 →
  id1 = id2 ∧ i = j ∧ k1 = k2.
Proof.
  unfold valueKey. intros H1 H2 Heq.
  apply first_underscore_split in Heq as [-> Heq]; [|done..].
  destruct (pretty_nat_digits i) as (Hi & _ & _), (pretty_nat_digits j) as (Hj & _ & _).
  apply first_underscore_split in Heq as [Hij ->]; [|by apply allDigits_no_underscore..].
  split; [done|]. split; [|done]. by apply (inj pretty).
Qed.

End keys.

(** ** Keys of the field value map *)

(** C3. The form input, the validation, the order payload and the bulk
    fan-out address the field at position 0 of game A under "a_0_ign"; the
    message composer reads "a_ign" instead, so it does not see the value the
    form stored, and for a game with two fields of the same key at
    different positions it reads one and the same entry for both. *)
Theorem message_composer_ignores_field_position :
  let env := Sample.env [Sample.gameA] in
  let st0 := Sample.state (Some "pm-1") (Some "https://cdn/r.png") ∅ in
  let typed := handleFieldInput Sample.gameA 0 Sample.IGN "X" st0 in
  let bulk := handleBulkInputChange "0" "X"
                (handleBulkGameSelectionChange (CartItem.id Sample.gameA) true st0) in
  let twin := Sample.item "d:::CART:::1720-q4" "D"
                (Some [Sample.field "id" "User ID" true; Sample.field "id" "Zone ID" true]) in
  customFieldValues typed = {[ "a_0_ign" := "X" ]}
  ∧ isDetailsValid env typed = true
  ∧ customerInfo env typed Sample.gcash = [("Payment Method", "GCash"); ("IGN", "X")]
  ∧ bulkWrites (cartItems env) bulk = [("a_0_ign", "X")]
  ∧ messageFields (customFieldValues typed) Sample.gameA = []
  ∧ messageFields {[ "a_ign" := "X" ]} Sample.gameA = [("IGN", "X")]
  ∧ messageFields {[ "d_id" := "7" ]} twin = [("User ID", "7"); ("Zone ID", "7")].
Proof. repeat split; vm_compute; reflexivity. Qed.

(** ** Grouping by shared answers *)

Section grouping.

(** Games for which the composer reads the same non-empty answers end up
    in a single group that lists their names in cart order. *)
Lemma gamesByFieldValues_shared (values : gmap string string) (items : list CartItem.t)
    (fields : list (string * string)) :
  items ≠ [] → fields ≠ [] →
  (∀ item, item ∈ items → messageFields values item = fields) →
  gamesByFieldValues values items
  = [(JsString.join "|" ((λ f, f.1 +:+ ":" +:+ f.2) <$> fields),
      (CartItem.name <$> items, fields))].
Proof.
  intros Hitems Hfields Hshared. unfold gamesByFieldValues.
  set (key := JsString.join "|" ((λ f, f.1 +:+ ":" +:+ f.2) <$> fields)).
  set (step := λ groups item, _).
  assert (∀ item groups, messageFields values item = fields →
            step groups item
            = JsMap.update key (λ g, (g.1 ++ [CartItem.name item], g.2))
                (if JsMap.has key groups then groups
                 else JsMap.set key ([], fields) groups)) as Hstep.
  { intros item groups Hitem. subst step. simpl. rewrite Hitem.
    rewrite bool_decide_eq_false_2; [done|]. by destruct fields. }
  assert (∀ rest names,
            (∀ item, item ∈ rest → messageFields values item = fields) →
            foldl step [(key, (names, fields))] rest
            = [(key, (names ++ (CartItem.name <$> rest), fields))]) as Hrest.
  { induction rest as [|item rest IH]; intros names Hall; simpl foldl.
    - by rewrite app_nil_r.
    - rewrite Hstep by (apply Hall; by left).
      assert (JsMap.has key [(key, (names, fields))] = true) as ->.
      { apply JsMap_has_spec. by left. }
      simpl. destruct (decide (key = key)); [|done]. simpl.
      rewrite IH by (intros ? ?; apply Hall; by right).
      by rewrite <- app_assoc. }
  destruct items as [|item items]; [done|]. simpl foldl.
  rewrite Hstep by (apply Hshared; by left). simpl.
  destruct (decide (key = key)); [|done]. simpl.
  rewrite Hrest by (intros ? ?; apply Hshared; by right). done.
Qed.

End grouping.

(** ** Grouping in the order message *)

(** C2. Games A and B both answer IGN with X through their form inputs.
    The composed message does not contain the block of the lines A, B and
    "IGN: X" (its custom-fields section is empty), because the composer
    looks the answers up under keys without the field position. Had the
    same answers been stored under the composer's keys, the block would
    occur exactly once. *)
Theorem shared_answers_block_missing_from_message :
  let env := Sample.env [Sample.gameA; Sample.gameB] in
  let st0 := Sample.state (Some "pm-1") (Some "https://cdn/r.png") ∅ in
  let typed := handleFieldInput Sample.gameB 0 Sample.IGN "X"
                 (handleFieldInput Sample.gameA 0 Sample.IGN "X" st0) in
  let block := "A" +:+ LF +:+ "B" +:+ LF +:+ "IGN: X" in
  isDetailsValid env typed = true
  ∧ customFieldsSection env typed = ""
  ∧ JsString.occurrences block (generateOrderMessage env typed) = 0
  ∧ JsString.occurrences block
      (generateOrderMessage env
         (setCustomFieldValues (λ _, {[ "a_ign" := "X"; "b_ign" := "X" ]}) st0)) = 1.
Proof. repeat split; vm_compute; reflexivity. Qed.

(** ** The validation flag *)

Section validation.

Lemma forallb_refuted {A} (f : A → bool) (l : list A) (x : A) :
  x ∈ l → f x = false → forallb f l = false.
Proof.
  intros Hin Hx. destruct (forallb f l) eqn:Hall; [|done].
  rewrite forallb_forall in Hall. rewrite <- Hx. symmetry. apply Hall.
  by apply list_elem_of_In.
Qed.

(** [isDetailsValid] is false as soon as the fallback in-game name is blank
    in a cart without custom fields, or a required field of a field-bearing
    item is blank. *)
Lemma isDetailsValid_blank_required (env : Env) (st : CheckoutState) :
  (hasAnyCustomFields (cartItems env) = false
   ∧ filled (customFieldValues st) "default_ign" = false)
  ∨ (∃ item fs fieldIndex field,
       item ∈ itemsWithCustomFields (cartItems env)
       ∧ CartItem.customFields item = Some fs
       ∧ fs !! fieldIndex = Some field
       ∧ CustomField.required field = true
       ∧ filled (customFieldValues st)
           (valueKey (getOriginalMenuItemId (CartItem.id item)) fieldIndex
                     (CustomField.key field)) = false) →
  isDetailsValid env st = false.
Proof.
  unfold isDetailsValid.
  intros [[Hnone Hblank]|(item & fs & i & field & Hitem & Hfs & Hfield & Hreq & Hblank)].
  - by rewrite Hnone.
  - assert (hasAnyCustomFields (cartItems env) = true) as ->.
    { unfold hasAnyCustomFields. apply bool_decide_eq_true.
      destruct (itemsWithCustomFields (cartItems env)); [by apply elem_of_nil in Hitem|].
      simpl. lia. }
    simpl. apply (forallb_refuted _ _ item Hitem). rewrite Hfs.
    apply (forallb_refuted _ _ false); [|done].
    apply list_elem_of_lookup. exists i.
    rewrite list_lookup_imap, Hfield. simpl. by rewrite Hreq, Hblank.
Qed.

(** Whatever the validity of the details, a direct order with a selected
    payment method and a receipt reaches the backend. *)
Lemma handlePlaceOrderDirect_calls_backend (env : Env)
    (createOrder : OrderPayload → Result (option Order.t))
    (st : CheckoutState) (storage : Storage.t) (method : PaymentMethod.t) :
  JsString.truthyOpt (paymentMethodUuid st) = true →
  JsString.truthyOpt (receiptImageUrl st) = true →
  selectedPaymentMethod env st = Some method →
  ∃ payload, (handlePlaceOrderDirect env createOrder st storage).2 = [CreateOrder payload].
Proof.
  intros Hpm Hru Hmethod. unfold handlePlaceOrderDirect. rewrite Hpm, Hru, Hmethod. simpl.
  destruct (createOrder _) as [[order|]|]; simpl; [|by eexists..].
  destruct (Storage.setItem _ _ _); by eexists.
Qed.

End validation.

(** ** Required-field validation and order creation *)

(** C1. The order is created although a required answer is blank: with a
    payment method and a receipt in place, [handlePlaceOrderDirect] calls
    the backend both when the cart has no custom fields and the fallback
    in-game name is blank, and when the required field of a game holds only
    white space; [isDetailsValid] is false on both states and is not
    consulted. *)
Theorem order_created_with_blank_required_field :
  let url := "https://cdn/r.png" in
  let st1 := Sample.state (Some "pm-1") (Some url) ∅ in
  let st2 := Sample.state (Some "pm-1") (Some url) {[ "a_0_ign" := "  " ]} in
  isDetailsValid (Sample.env [Sample.plain]) st1 = false
  ∧ (handlePlaceOrderDirect (Sample.env [Sample.plain]) Sample.backend st1 Sample.emptyStore).2
    = [CreateOrder {| order_items := [Sample.plain];
                      customer_info := [("Payment Method", "GCash")];
                      payment_method_id := "pm-1";
                      receipt_url := url;
                      total_price := 100 |}]
  ∧ isDetailsValid (Sample.env [Sample.gameA]) st2 = false
  ∧ (handlePlaceOrderDirect (Sample.env [Sample.gameA]) Sample.backend st2 Sample.emptyStore).2
    = [CreateOrder {| order_items := [Sample.gameA];
                      customer_info := [("Payment Method", "GCash"); ("IGN", "  ")];
                      payment_method_id := "pm-1";
                      receipt_url := url;
                      total_price := 100 |}].
Proof. repeat split; vm_compute; reflexivity. Qed.

(** ** Rejected submissions *)

(** C7. In both submission modes, when no payment method is selected or no
    receipt reference exists, the handler sets the receipt error string and
    does nothing else: no window is opened, no order is created, the store
    is untouched and every other cell of the state keeps its value. *)
Theorem submission_rejected_without_payment_or_receipt
    (env : Env) (createOrder : OrderPayload → Result (option Order.t))
    (st : CheckoutState) (storage : Storage.t) :
  JsString.truthyOpt (paymentMethodUuid st) = false
  ∨ JsString.truthyOpt (receiptImageUrl st) = false →
  ∃ message : string,
    let st' :=
      {| paymentMethodUuid := paymentMethodUuid st;
         showPaymentDetailsModal := showPaymentDetailsModal st;
         customFieldValues := customFieldValues st;
         receiptFile := receiptFile st;
         receiptImageUrl := receiptImageUrl st;
         receiptPreview := receiptPreview st;
         receiptError := Some message;
         copied := copied st;
         hasCopiedMessage := hasCopiedMessage st;
         copiedAccountNumber := copiedAccountNumber st;
         copiedAccountName := copiedAccountName st;
         bulkInputValues := bulkInputValues st;
         bulkSelectedGames := bulkSelectedGames st;
         orderId := orderId st;
         isOrderModalOpen := isOrderModalOpen st;
         isPlacingOrder := isPlacingOrder st;
         existingOrderStatus := existingOrderStatus st;
         isCheckingExistingOrder := isCheckingExistingOrder st |} in
    message ≠ ""
    ∧ handlePlaceOrder env st = (st', [])
    ∧ handlePlaceOrderDirect env createOrder st storage = (st', storage, []).
Proof.
  intros Hmissing. unfold handlePlaceOrder, handlePlaceOrderDirect.
  destruct (JsString.truthyOpt (paymentMethodUuid st)) eqn:Hpm; simpl.
  - destruct Hmissing as [|Hru]; [done|]. rewrite Hru. simpl.
    exists "Please upload your payment receipt before placing the order".
    cbv zeta. rewrite <- setReceiptError_spec. by split.
  - exists "Please select a payment method".
    cbv zeta. rewrite <- setReceiptError_spec. by split.
Qed.

Lemma submission_rejected_witness :
  let st := Sample.state None (Some "https://cdn/r.png") ∅ in
  ∃ message : string,
    handlePlaceOrder (Sample.env [Sample.plain]) st
      = (setReceiptError (Some message) st, [])
    ∧ handlePlaceOrderDirect (Sample.env [Sample.plain]) Sample.backend st Sample.emptyStore
      = (setReceiptError (Some message) st, Sample.emptyStore, []).
Proof.
  intros st.
  destruct (submission_rejected_without_payment_or_receipt
              (Sample.env [Sample.plain]) Sample.backend st Sample.emptyStore
              (or_introl eq_refl))
    as (m & _ & H1 & H2).
  exists m. split; [exact H1|exact H2].
Defined.

(** ** Existing-order recovery *)

(** C6. On mount with a stored order id: an order fetched as "approved"
    clears the stored id and the in-memory order id and status; an order
    fetched as "rejected" keeps the stored id and sets the status flag and
    the order id; a fetch that returns no order clears the stored id. *)
Theorem checkExistingOrder_by_status
    (fetchOrderById : string → option Order.t) (st : CheckoutState)
    (items : gmap string string) (storedOrderId : string) :
  items !! CURRENT_ORDER_ID = Some storedOrderId →
  storedOrderId ≠ "" →
  let storage := {| Storage.accessible := true; Storage.items := items |} in
  ∃ st' storage',
    checkExistingOrder fetchOrderById st storage = Ok (st', storage')
    ∧ Storage.accessible storage' = true
    ∧ (∀ order, fetchOrderById storedOrderId = Some order →
         Order.status order = "approved" →
         Storage.items storage' !! CURRENT_ORDER_ID = None
         ∧ orderId st' = None ∧ existingOrderStatus st' = None)
    ∧ (∀ order, fetchOrderById storedOrderId = Some order →
         Order.status order = "rejected" →
         Storage.items storage' !! CURRENT_ORDER_ID = Some storedOrderId
         ∧ storage' = storage
         ∧ orderId st' = Some (Order.id order)
         ∧ existingOrderStatus st' = Some "rejected")
    ∧ (fetchOrderById storedOrderId = None →
         Storage.items storage' !! CURRENT_ORDER_ID = None
         ∧ orderId st' = orderId st
         ∧ existingOrderStatus st' = existingOrderStatus st).
Proof.
  intros Hstored Hne storage.
  unfold checkExistingOrder, Storage.getItem. simpl. rewrite Hstored. simpl.
  assert (JsString.truthyOpt (Some storedOrderId) = true) as ->.
  { unfold JsString.truthyOpt, JsString.truthy. simpl. by rewrite bool_decide_eq_false_2. }
  destruct (fetchOrderById storedOrderId) as [order|] eqn:Hfetch; simpl.
  - destruct (bool_decide (Order.status order = "approved")) eqn:Happroved; simpl.
    + apply bool_decide_eq_true_1 in Happroved.
      eexists _, _. split; [reflexivity|]. simpl. split; [done|].
      split; [|split]; [| |done].
      * intros o [= <-] _. rewrite lookup_delete_eq. by destruct st.
      * intros o [= <-] Hrej. rewrite Hrej in Happroved. discriminate.
    + apply bool_decide_eq_false_1 in Happroved.
      eexists _, _. split; [reflexivity|]. simpl. split; [done|].
      split; [|split]; [| |done].
      * intros o [= <-] Happ. done.
      * intros o [= <-] Hrej. rewrite <- Hrej. by destruct st.
  - eexists _, _. split; [reflexivity|]. simpl. split; [done|].
    split; [|split]; [done|done|].
    intros _. rewrite lookup_delete_eq. by destruct st.
Qed.

Lemma checkExistingOrder_witness :
  let storage := {| Storage.accessible := true;
                    Storage.items := {[ CURRENT_ORDER_ID := "o-7" ]} |} in
  let fetch := λ _ : string, Some {| Order.id := "o-7"; Order.status := "approved" |} in
  ∃ st' storage',
    checkExistingOrder fetch (Sample.state None None ∅) storage = Ok (st', storage')
    ∧ Storage.items storage' !! CURRENT_ORDER_ID = None
    ∧ orderId st' = None ∧ existingOrderStatus st' = None.
Proof.
  intros storage fetch.
  destruct (checkExistingOrder_by_status fetch (Sample.state None None ∅)
              ({[ CURRENT_ORDER_ID := "o-7" ]} : gmap string string) "o-7")
    as (st' & storage' & Hrun & _ & Happroved & _).
  - vm_compute. reflexivity.
  - discriminate.
  - exists st', storage'. split; [exact Hrun|].
    exact (Happroved _ eq_refl eq_refl).
Defined.

(** ** Initialisation from the store *)

Section initialisers.
Context {codecValues : JsonCodec (gmap string string)}.
Context {codecBulk : JsonCodec (list (string * string))}.
Context {codecGames : JsonCodec (list string)}.

(** A guarded JSON cell falls back to its default when the store throws,
    holds nothing under the key, or holds a text that does not parse. *)
Lemma readJson_degrades {A} `{JsonCodec A} (k : string) (d : A) (s : Storage.t) :
  Storage.accessible s = false
  ∨ Storage.items s !! k = None
  ∨ (∃ text, Storage.items s !! k = Some text ∧ JSON_parse text = None) →
  catch (readJson k d s) d = d.
Proof.
  unfold readJson, Storage.getItem.
  intros [Hacc|[Habsent|(text & Htext & Hparse)]].
  - by rewrite Hacc.
  - destruct (Storage.accessible s); [|done]. simpl. by rewrite Habsent.
  - destruct (Storage.accessible s); [|done]. simpl. rewrite Htext. simpl.
    destruct (JsString.truthyOpt (Some text)); [|done]. by rewrite Hparse.
Qed.

(** On a readable store the receipt cells start as what the store holds. *)
Lemma init_receipt_readable (s : Storage.t) :
  Storage.accessible s = true →
  init_receiptImageUrl s = Ok (Storage.items s !! CHECKOUT_STORAGE_KEYS.receiptImageUrl)
  ∧ init_receiptPreview s = Ok (Storage.items s !! CHECKOUT_STORAGE_KEYS.receiptPreview).
Proof.
  intros Hacc. unfold init_receiptImageUrl, init_receiptPreview, Storage.getItem.
  by rewrite Hacc.
Qed.

(** C4. When reading the store throws, the payment method, the field
    values, the bulk values and the bulk selection start from their
    defaults, but the initialisers of the receipt reference and of the
    receipt preview let the exception through, and so does the
    initialisation of the component. *)
Theorem receipt_initialisers_propagate_storage_exception (items : gmap string string) :
  let s := {| Storage.accessible := false; Storage.items := items |} in
  init_paymentMethodUuid s = None
  ∧ init_customFieldValues s = ∅
  ∧ init_bulkInputValues s = []
  ∧ init_bulkSelectedGames s = []
  ∧ init_receiptImageUrl s = Throw
  ∧ init_receiptPreview s = Throw
  ∧ initialState s = Throw.
Proof. repeat split. Qed.

End initialisers.

(** ** Reload *)

Section reload.
Context {codecValues : JsonCodec (gmap string string)}.
Context {codecBulk : JsonCodec (list (string * string))}.
Context {codecGames : JsonCodec (list string)}.

Lemma stored_orEmpty (v : option string) : JsString.orEmpty (stored v) = JsString.orEmpty v.
Proof.
  unfold stored, JsString.truthyOpt, JsString.truthy.
  case_bool_decide as Hempty; simpl; [by rewrite Hempty|done].
Qed.

Lemma stored_truthy (v : option string) : v ≠ Some "" → stored v = v.
Proof.
  unfold stored, JsString.truthyOpt, JsString.truthy. intros Hv.
  destruct v as [x|]; simpl; [|done].
  rewrite bool_decide_eq_false_2; [done|]. intros ->. done.
Qed.

Lemma mirrorString_accessible (k : string) (v : option string) (items : gmap string string) :
  ∃ items',
    mirrorString k v {| Storage.accessible := true; Storage.items := items |}
    = Ok {| Storage.accessible := true; Storage.items := items' |}
    ∧ items' !! k = stored v
    ∧ ∀ k', k' ≠ k → items' !! k' = items !! k'.
Proof.
  unfold mirrorString, stored, Storage.setItem, Storage.removeItem. simpl.
  destruct (JsString.truthyOpt v) eqn:Htruthy.
  - eexists. split; [reflexivity|]. split.
    + rewrite lookup_insert_eq. destruct v as [x|]; [done|].
      vm_compute in Htruthy. discriminate Htruthy.
    + intros k' Hk'. by rewrite lookup_insert_ne.
  - eexists. split; [reflexivity|]. split.
    + by rewrite lookup_delete_eq.
    + intros k' Hk'. by rewrite lookup_delete_ne.
Qed.

(** On a readable store the mirroring succeeds and leaves every cell under
    its key. *)
Lemma persist_accessible (st : CheckoutState) (s : Storage.t) :
  Storage.accessible s = true →
  ∃ items',
    persist st s = Ok {| Storage.accessible := true; Storage.items := items' |}
    ∧ items' !! CHECKOUT_STORAGE_KEYS.customFieldValues
      = Some (JSON_stringify (customFieldValues st))
    ∧ items' !! CHECKOUT_STORAGE_KEYS.receiptImageUrl = stored (receiptImageUrl st)
    ∧ items' !! CHECKOUT_STORAGE_KEYS.receiptPreview = stored (receiptPreview st)
    ∧ items' !! CHECKOUT_STORAGE_KEYS.paymentMethodUuid = stored (paymentMethodUuid st).
Proof.
  destruct s as [acc items]. simpl. intros ->.
  unfold persist, Storage.setItem. simpl.
  destruct (mirrorString_accessible CHECKOUT_STORAGE_KEYS.receiptImageUrl (receiptImageUrl st)
              (<[CHECKOUT_STORAGE_KEYS.customFieldValues
                 := JSON_stringify (customFieldValues st)]> items))
    as (items1 & -> & Hru1 & Hframe1).
  simpl.
  destruct (mirrorString_accessible CHECKOUT_STORAGE_KEYS.receiptPreview (receiptPreview st)
              items1)
    as (items2 & -> & Hrp2 & Hframe2).
  simpl.
  destruct (mirrorString_accessible CHECKOUT_STORAGE_KEYS.paymentMethodUuid
              (paymentMethodUuid st)
              (<[CHECKOUT_STORAGE_KEYS.bulkSelectedGames
                 := JSON_stringify (bulkSelectedGames st)]>
                 (<[CHECKOUT_STORAGE_KEYS.bulkInputValues
                    := JSON_stringify (bulkInputValues st)]> items2)))
    as (items3 & -> & Hpm3 & Hframe3).
  exists items3. split; [done|].
  repeat split.
  - rewrite Hframe3 by done. rewrite !lookup_insert_ne by done.
    rewrite Hframe2 by done. rewrite Hframe1 by done. by rewrite lookup_insert_eq.
  - rewrite Hframe3 by done. rewrite !lookup_insert_ne by done.
    rewrite Hframe2 by done. done.
  - rewrite Hframe3 by done. rewrite !lookup_insert_ne by done. done.
  - done.
Qed.

(** A reload over a readable store succeeds; it brings back the field
    values when their text parses back, and the string cells up to the
    empty string. *)
Lemma reload_accessible (st : CheckoutState) (s : Storage.t) :
  Storage.accessible s = true →
  json_faithful (customFieldValues st) →
  ∃ st',
    reload st s = Ok st'
    ∧ customFieldValues st' = customFieldValues st
    ∧ paymentMethodUuid st' = stored (paymentMethodUuid st)
    ∧ receiptImageUrl st' = stored (receiptImageUrl st)
    ∧ receiptPreview st' = stored (receiptPreview st).
Proof.
  intros Hacc [Hne Hparse].
  destruct (persist_accessible st s Hacc) as (items' & Hpersist & Hcfv & Hru & Hrp & Hpm).
  unfold reload. rewrite Hpersist. simpl.
  unfold initialState, init_receiptImageUrl, init_receiptPreview, Storage.getItem. simpl.
  eexists. split; [reflexivity|]. simpl. repeat split; try done.
  unfold init_customFieldValues, readJson, Storage.getItem. simpl. rewrite Hcfv. simpl.
  unfold JsString.truthyOpt, JsString.truthy. simpl.
  rewrite bool_decide_eq_false_2 by done. simpl. by rewrite Hparse.
Qed.

Lemma find_none {A} (p : A → bool) (l : list A) :
  (∀ x, x ∈ l → p x = false) → List.find p l = None.
Proof.
  induction l as [|x l IH]; intros Hall; [done|]. simpl.
  rewrite (Hall x) by (by left). apply IH. intros y Hy. apply Hall. by right.
Qed.

(** The reload may turn the payment method id [""] into [null]; neither
    selects a payment method. *)
Lemma selectedPaymentMethod_stored (env : Env) (st st' : CheckoutState) :
  methodIdsPresent env →
  paymentMethodUuid st' = stored (paymentMethodUuid st) →
  selectedPaymentMethod env st' = selectedPaymentMethod env st.
Proof.
  intros Hids Hpm. unfold selectedPaymentMethod. rewrite Hpm.
  destruct (decide (paymentMethodUuid st = Some "")) as [Hempty|Hother];
    [|by rewrite stored_truthy].
  rewrite Hempty. rewrite !find_none; [done| |].
  - intros method Hin. apply bool_decide_eq_false. intros [= Hid]. by apply (Hids method).
  - intros method Hin. by apply bool_decide_eq_false.
Qed.

(** C8. For every checkout state and every cart, over a readable store,
    with field values whose stored text parses back to them and payment
    methods identified as the schema has them, the reload succeeds and the
    order message composed after the reload is the message composed before
    it. *)
Theorem reload_preserves_order_message (env : Env) (st : CheckoutState) (s : Storage.t) :
  Storage.accessible s = true →
  json_faithful (customFieldValues st) →
  methodIdsPresent env →
  ∃ st', reload st s = Ok st'
    ∧ generateOrderMessage env st' = generateOrderMessage env st.
Proof.
  intros Hacc Hjson Hids.
  destruct (reload_accessible st s Hacc Hjson) as (st' & Hreload & Hcfv & Hpm & Hru & _).
  exists st'. split; [done|].
  unfold generateOrderMessage, customFieldsSection.
  by rewrite (selectedPaymentMethod_stored env st st'), Hcfv, Hru, stored_orEmpty.
Qed.

End reload.

Lemma reload_preserves_order_message_witness :
  let env := Sample.env [Sample.gameA; Sample.plain] in
  let st := Sample.state (Some "pm-1") (Some "https://cdn/r.png")
              {[ "a_0_ign" := "X"; "a_ign" := "Y" ]} in
  ∃ st',
    @reload FlatJson.codecValues FlatJson.codecBulk FlatJson.codecGames st Sample.emptyStore
    = Ok st'
    ∧ generateOrderMessage env st' = generateOrderMessage env st.
Proof.
  intros env st.
  apply (@reload_preserves_order_message
           FlatJson.codecValues FlatJson.codecBulk FlatJson.codecGames env st Sample.emptyStore).
  - reflexivity.
  - split; [|vm_compute; reflexivity]. intros Hempty. vm_compute in Hempty. discriminate Hempty.
  - intros method [-> |Hin%elem_of_nil]%elem_of_cons; [discriminate|done].
Defined.

(** The guarantee of the schema is needed: were a payment method
    identified by the empty string, selecting it would yield a state whose
    id is removed from the store instead of stored, and the payment line of
    the message would lose the method's name over a reload. *)
Lemma reload_drops_empty_payment_method_id :
  let env := {| cartItems := [Sample.plain]; totalPrice := 100;
                paymentMethods := [Sample.method "" "GCash"] |} in
  let st := Sample.state (Some "") (Some "https://cdn/r.png") ∅ in
  let st' := Sample.state None (Some "https://cdn/r.png") ∅ in
  @reload FlatJson.codecValues FlatJson.codecBulk FlatJson.codecGames st Sample.emptyStore
    = Ok st'
  ∧ JsString.includes "Payment: GCash" (generateOrderMessage env st) = true
  ∧ JsString.includes "Payment: GCash" (generateOrderMessage env st') = false.
Proof. repeat split; vm_compute; reflexivity. Qed.

(** ** Receipt removal *)

(** C9. Removing the receipt clears the pending file, the receipt
    reference, the preview, the receipt error and the "message copied" flag
    in one transition, and every other cell of the checkout state keeps its
    value. *)
Theorem handleReceiptRemove_clears_together (st : CheckoutState) :
  handleReceiptRemove st =
  {| paymentMethodUuid := paymentMethodUuid st;
     showPaymentDetailsModal := showPaymentDetailsModal st;
     customFieldValues := customFieldValues st;
     receiptFile := None;
     receiptImageUrl := None;
     receiptPreview := None;
     receiptError := None;
     copied := copied st;
     hasCopiedMessage := false;
     copiedAccountNumber := copiedAccountNumber st;
     copiedAccountName := copiedAccountName st;
     bulkInputValues := bulkInputValues st;
     bulkSelectedGames := bulkSelectedGames st;
     orderId := orderId st;
     isOrderModalOpen := isOrderModalOpen st;
     isPlacingOrder := isPlacingOrder st;
     existingOrderStatus := existingOrderStatus st;
     isCheckingExistingOrder := isCheckingExistingOrder st |}.
Proof. by destruct st. Qed.

(** ** Receipt removal in the store *)

Section receipt_store.
Context {codecValues : JsonCodec (gmap string string)}.
Context {codecBulk : JsonCodec (list (string * string))}.
Context {codecGames : JsonCodec (list string)}.

(** Once the removal is mirrored, the store holds neither the receipt
    reference nor the preview. *)
Lemma handleReceiptRemove_persisted (st : CheckoutState) (s : Storage.t) :
  Storage.accessible s = true →
  ∃ s', persist (handleReceiptRemove st) s = Ok s'
    ∧ Storage.items s' !! CHECKOUT_STORAGE_KEYS.receiptImageUrl = None
    ∧ Storage.items s' !! CHECKOUT_STORAGE_KEYS.receiptPreview = None.
Proof.
  intros Hacc.
  destruct (persist_accessible (handleReceiptRemove st) s Hacc)
    as (items' & Hpersist & _ & Hru & Hrp & _).
  eexists. split; [exact Hpersist|]. simpl.
  rewrite Hru, Hrp. by destruct st.
Qed.

End receipt_store.

(** ** Bulk input *)

Section bulk.

Lemma elem_of_filter_bool {A} (f : A → bool) (l : list A) (x : A) :
  x ∈ List.filter f l ↔ x ∈ l ∧ f x = true.
Proof. by rewrite !list_elem_of_In, filter_In. Qed.

Lemma insertByIndex_elem (e x : N * (string * string)) (l : list (N * (string * string))) :
  x ∈ JsObject.insertByIndex e l ↔ x = e ∨ x ∈ l.
Proof.
  induction l as [|e' l IH]; simpl.
  - rewrite list_elem_of_singleton, elem_of_nil. tauto.
  - case_bool_decide.
    + by rewrite elem_of_cons.
    + rewrite !elem_of_cons, IH. tauto.
Qed.

(** [Object.entries] lists exactly the properties of the object. *)
Lemma entries_elem (o : list (string * string)) (p : string * string) :
  p ∈ JsObject.entries o ↔ p ∈ o.
Proof.
  unfold JsObject.entries. rewrite elem_of_app.
  assert (∀ l x, x ∈ foldr JsObject.insertByIndex [] l ↔ x ∈ l) as Hsorted.
  { induction l as [|e l IH]; intros x; simpl; [done|].
    by rewrite insertByIndex_elem, IH, elem_of_cons. }
  assert (p ∈ (foldr JsObject.insertByIndex [] (JsObject.indexed o)).*2
          ↔ p ∈ o ∧ is_Some (JsObject.arrayIndex p.1)) as ->.
  { rewrite list_elem_of_fmap. split.
    - intros ([n q] & -> & Hin). rewrite Hsorted in Hin. unfold JsObject.indexed in Hin.
      apply list_elem_of_omap in Hin as (q' & Hq' & Hn). simpl.
      destruct (JsObject.arrayIndex q'.1) eqn:Hidx; [|done]. simpl in Hn.
      injection Hn as <- <-. eauto.
    - intros [Hin [n Hn]]. exists (n, p). split; [done|]. rewrite Hsorted.
      unfold JsObject.indexed. apply list_elem_of_omap. exists p. split; [done|].
      by rewrite Hn. }
  unfold JsObject.named.
  rewrite elem_of_filter_bool, bool_decide_eq_true.
  destruct (JsObject.arrayIndex p.1) eqn:Hidx.
  - split; [intros [[? _]|[_ ?]]; done|]. intros ?. left. eauto.
  - split; [intros [[_ [? ?]]|[? _]]; done|]. intros ?. by right.
Qed.

Lemma JsMap_set_elem {V} (k : string) (v : V) (m : list (string * V)) :
  (k, v) ∈ JsMap.set k v m.
Proof.
  induction m as [|[k' v'] m IH]; simpl; [by left|].
  destruct (decide (k' = k)); [by left|by right].
Qed.

(** What a run of assignments leaves in [updates]. *)
Lemma assignments_lookup (writes : list (string * string)) (updates : gmap string string)
    (k : string) :
  (k ∉ writes.*1 →
     foldl (λ updates w, <[w.1 := w.2]> updates) updates writes !! k = updates !! k)
  ∧ (k ∈ writes.*1 →
     is_Some (foldl (λ updates w, <[w.1 := w.2]> updates) updates writes !! k))
  ∧ (∀ v, NoDup writes.*1 → (k, v) ∈ writes →
     foldl (λ updates w, <[w.1 := w.2]> updates) updates writes !! k = Some v).
Proof.
  revert updates. induction writes as [|[k' v'] writes IH]; intros updates; simpl.
  - split; [done|]. split; [by intros ?%elem_of_nil|]. by intros v _ ?%elem_of_nil.
  - destruct (IH (<[k' := v']> updates)) as (Hout & Hin & Hlast).
    split; [|split].
    + intros [Hne Hk]%not_elem_of_cons. rewrite Hout by done. by rewrite lookup_insert_ne.
    + intros Hk. destruct (decide (k ∈ writes.*1)) as [?|Hnot]; [by apply Hin|].
      apply elem_of_cons in Hk as [-> |?]; [|done].
      rewrite Hout by done. rewrite lookup_insert_eq. eauto.
    + intros v [Hfresh Hnd]%NoDup_cons Hv.
      apply elem_of_cons in Hv as [[= -> ->]|Hv]; [|by apply Hlast].
      rewrite Hout by done. by rewrite lookup_insert_eq.
Qed.

Lemma selectedItems_elem (cartItems : list CartItem.t) (games : list string) (item : CartItem.t) :
  item ∈ selectedItems cartItems games →
  item ∈ itemsWithCustomFields cartItems
  ∧ getOriginalMenuItemId (CartItem.id item) ∈ games.
Proof.
  unfold selectedItems. by rewrite elem_of_filter_bool, bool_decide_eq_true.
Qed.

Lemma selectedItems_none (cartItems : list CartItem.t) :
  selectedItems cartItems [] = [].
Proof.
  destruct (selectedItems cartItems []) as [|item l] eqn:Hsel; [done|].
  destruct (selectedItems_elem cartItems [] item) as [_ Hin]; [rewrite Hsel; by left|].
  by apply elem_of_nil in Hin.
Qed.

(** For the entry of position [i], the sync effect assigns the value to
    the position-[i] key of every selected item that has a field there, and
    performs no assignment for the other selected items. *)
Lemma bulkWritesFor_position (cartItems selected : list CartItem.t) (i : nat) (value : string) :
  (∀ item, item ∈ selected → item ∈ itemsWithCustomFields cartItems) →
  bulkWritesFor cartItems selected (pretty i) value
  = omap (λ item,
            field ← CartItem.customFields item ≫= (λ fs, fs !! i);
            Some (valueKey (getOriginalMenuItemId (CartItem.id item)) i
                           (CustomField.key field), value))
         selected.
Proof.
  intros Hsub. unfold bulkWritesFor. rewrite parseInt_pretty.
  induction selected as [|item selected IH]; [done|].
  rewrite bind_cons, IH by (intros ? ?; apply Hsub; by right).
  assert (CartItem.customFields item ≫= (λ fs, JsNumber.at_ fs (Z.of_nat i))
          = CartItem.customFields item ≫= (λ fs, fs !! i)) as ->.
  { destruct (CartItem.customFields item); [|done]. simpl. apply at_of_nat. }
  simpl omap.
  destruct (CartItem.customFields item ≫= (λ fs, fs !! i)) as [field|]; [|done].
  simpl.
  destruct (list_find _ (itemsWithCustomFields cartItems)) as [found|] eqn:Hfind.
  - by rewrite Nat2Z.id.
  - apply list_find_None in Hfind. rewrite Forall_forall in Hfind.
    destruct (Hfind item); [|done]. apply Hsub. by left.
Qed.

End bulk.

(** C5. The number of bulk fields is the largest field count among the
    selected items. Entering a value at bulk position [i] records it under
    the key [i.toString()]; for that entry the sync effect assigns the value
    to the position-[i] key of every selected item that has a field at
    position [i] and performs no assignment for a selected item without
    one. Each such key is then overwritten in the field value map, with the
    entered value when no other assignment of the effect addresses the same
    key, and keys that the effect does not assign keep their values. *)
Theorem bulk_input_fans_out_by_position
    (cartItems : list CartItem.t) (st : CheckoutState) (i : nat) (value : string) :
  let selected := selectedItems cartItems (bulkSelectedGames st) in
  let entered := handleBulkInputChange (pretty i) value st in
  let synced := bulkSync cartItems entered in
  length (bulkInputFields cartItems st) = list_max (fieldCount <$> selected)
  ∧ (pretty i, value) ∈ JsObject.entries (bulkInputValues entered)
  ∧ bulkWritesFor cartItems selected (pretty i) value
    = omap (λ item,
              field ← CartItem.customFields item ≫= (λ fs, fs !! i);
              Some (valueKey (getOriginalMenuItemId (CartItem.id item)) i
                             (CustomField.key field), value))
           selected
  ∧ (∀ item field,
       item ∈ selected →
       CartItem.customFields item ≫= (λ fs, fs !! i) = Some field →
       let k := valueKey (getOriginalMenuItemId (CartItem.id item)) i
                         (CustomField.key field) in
       (k, value) ∈ bulkWrites cartItems entered
       ∧ customFieldValues synced !! k = bulkUpdates cartItems entered !! k
       ∧ is_Some (customFieldValues synced !! k)
       ∧ (NoDup (bulkWrites cartItems entered).*1 →
          customFieldValues synced !! k = Some value))
  ∧ (∀ k, k ∉ (bulkWrites cartItems entered).*1 →
       customFieldValues synced !! k = customFieldValues st !! k).
Proof.
  intros selected entered synced.
  assert (bulkSelectedGames entered = bulkSelectedGames st) as Hgames.
  { apply bulkSelectedGames_setBulkInputValues. }
  assert (∀ item, item ∈ selected → item ∈ itemsWithCustomFields cartItems) as Hsub.
  { intros item Hin. by apply selectedItems_elem in Hin as [? _]. }
  assert (∀ k, is_Some (bulkUpdates cartItems entered !! k) →
               customFieldValues synced !! k = bulkUpdates cartItems entered !! k) as Hwritten.
  { intros k [v Hv]. subst synced. unfold bulkSync.
    case_bool_decide as Hnone.
    { exfalso. apply nil_length_inv in Hnone.
      unfold bulkUpdates, bulkWrites in Hv. rewrite Hnone, selectedItems_none in Hv.
      assert (∀ l : list (string * string),
                l ≫= (λ entry, bulkWritesFor cartItems [] entry.1 entry.2) = []) as Hnil.
      { induction l as [|e l IHl]; [done|]. rewrite bind_cons, IHl.
        unfold bulkWritesFor. by destruct (JsNumber.parseInt e.1). }
      rewrite Hnil in Hv. simpl in Hv. by rewrite lookup_empty in Hv. }
    rewrite bool_decide_eq_true_2.
    - rewrite customFieldValues_set, Hv. by apply lookup_union_Some_l.
    - destruct (decide (size (bulkUpdates cartItems entered) = 0)) as [Hsize|]; [|lia].
      apply map_size_empty_inv in Hsize. rewrite Hsize, lookup_empty in Hv. done. }
  split; [|split; [|split; [|split]]].
  - unfold bulkInputFields. fold selected.
    case_bool_decide as Hnone.
    { apply nil_length_inv in Hnone. subst selected.
      by rewrite Hnone, selectedItems_none. }
    destruct selected as [|referenceItem rest] eqn:Hsel; [done|].
    case_bool_decide as Hmax; [by rewrite Hmax|].
    by rewrite length_fmap, length_seq.
  - subst entered. unfold handleBulkInputChange. rewrite bulkInputValues_set.
    apply entries_elem, JsMap_set_elem.
  - by apply bulkWritesFor_position.
  - intros item field Hitem Hfield k.
    assert ((k, value) ∈ bulkWrites cartItems entered) as Hwrite.
    { unfold bulkWrites. rewrite Hgames. fold selected.
      apply list_elem_of_bind. exists (pretty i, value). split.
      - simpl. rewrite bulkWritesFor_position by done.
        apply list_elem_of_omap. exists item. split; [done|]. by rewrite Hfield.
      - subst entered. unfold handleBulkInputChange. rewrite bulkInputValues_set.
        apply entries_elem, JsMap_set_elem. }
    destruct (assignments_lookup (bulkWrites cartItems entered) ∅ k) as (_ & Hin & Hlast).
    assert (is_Some (bulkUpdates cartItems entered !! k)) as Hsome.
    { apply Hin. apply list_elem_of_fmap. by exists (k, value). }
    split; [done|]. split; [by apply Hwritten|]. split.
    + by rewrite Hwritten.
    + intros Hnd. rewrite Hwritten by done. by apply Hlast.
  - intros k Hk.
    destruct (assignments_lookup (bulkWrites cartItems entered) ∅ k) as (Hout & _ & _).
    specialize (Hout Hk). rewrite lookup_empty in Hout. fold (bulkUpdates cartItems entered) in Hout.
    assert (customFieldValues entered = customFieldValues st) as Hsame.
    { apply customFieldValues_setBulkInputValues. }
    subst synced. unfold bulkSync.
    case_bool_decide; [by rewrite Hsame|].
    case_bool_decide; [|by rewrite Hsame].
    rewrite customFieldValues_set, Hsame. by apply lookup_union_r.
Qed.

Lemma bulk_input_witness :
  let cart := [Sample.game2; Sample.game3] in
  let st := handleBulkGameSelectionChange (CartItem.id Sample.game3) true
              (handleBulkGameSelectionChange (CartItem.id Sample.game2) true
                 (Sample.state None None ∅)) in
  let synced := bulkSync cart (handleBulkInputChange (pretty 0) "777" st) in
  length (bulkInputFields cart st) = 3
  ∧ customFieldValues synced !! "g2_0_uid" = Some "777"
  ∧ customFieldValues synced !! "g3_0_uid" = Some "777"
  ∧ bulkWritesFor cart (selectedItems cart (bulkSelectedGames st)) (pretty 2) "x"
    = [("g3_2_ign", "x")].
Proof.
  intros cart st synced.
  assert (selectedItems cart (bulkSelectedGames st) = [Sample.game2; Sample.game3]) as Hsel.
  { vm_compute. reflexivity. }
  destruct (bulk_input_fans_out_by_position cart st 0 "777") as (Hlen & _ & _ & Hset & _).
  destruct (bulk_input_fans_out_by_position cart st 2 "x") as (_ & _ & Hfor & _).
  rewrite Hsel in Hlen, Hset, Hfor.
  assert (NoDup (bulkWrites cart (handleBulkInputChange (pretty 0) "777" st)).*1) as Hnd.
  { apply (bool_decide_unpack _). vm_compute. exact I. }
  split; [exact Hlen|]. split; [|split].
  - destruct (Hset Sample.game2 (Sample.field "uid" "User ID" true)) as (_ & _ & _ & Hval).
    + by left.
    + reflexivity.
    + exact (Hval Hnd).
  - destruct (Hset Sample.game3 (Sample.field "uid" "UID" true)) as (_ & _ & _ & Hval).
    + right. by left.
    + reflexivity.
    + exact (Hval Hnd).
  - rewrite Hsel. exact Hfor.
Defined.

(** ** When the assignments of the sync effect never collide *)

Section distinct_assignments.

Lemma insertByIndex_perm (e : N * (string * string)) (l : list (N * (string * string))) :
  JsObject.insertByIndex e l ≡ₚ e :: l.
Proof.
  induction l as [|e' l IH]; simpl; [done|].
  case_bool_decide; [done|]. rewrite IH. apply Permutation_swap.
Qed.

(** [Object.entries] is a rearrangement of the properties. *)
Lemma entries_perm (o : list (string * string)) : JsObject.entries o ≡ₚ o.
Proof.
  unfold JsObject.entries.
  assert (∀ l, foldr JsObject.insertByIndex [] l ≡ₚ l) as Hsorted.
  { induction l as [|e l IH]; simpl; [done|]. by rewrite insertByIndex_perm, IH. }
  rewrite Hsorted. unfold JsObject.indexed, JsObject.named.
  induction o as [|p o IH]; [done|]. simpl.
  destruct (JsObject.arrayIndex p.1) as [n|]; simpl.
  - by rewrite IH.
  - rewrite <- Permutation_middle. by rewrite IH.
Qed.

Lemma NoDup_keys_functional {V} (m : list (string * V)) (k : string) (v1 v2 : V) :
  NoDup m.*1 → (k, v1) ∈ m → (k, v2) ∈ m → v1 = v2.
Proof.
  induction m as [|[k' v'] m IH]; intros Hnd H1 H2; [by apply elem_of_nil in H1|].
  rewrite fmap_cons in Hnd. apply NoDup_cons in Hnd as [Hfresh Hnd].
  simpl in Hfresh.
  apply elem_of_cons in H1 as [H1|H1], H2 as [H2|H2].
  - congruence.
  - injection H1 as -> ->. destruct Hfresh. apply list_elem_of_fmap. by exists (k', v2).
  - injection H2 as -> ->. destruct Hfresh. apply list_elem_of_fmap. by exists (k', v1).
  - by apply IH.
Qed.

Lemma fmap_of_bind {A B C} (g : B → C) (f : A → list B) (l : list A) :
  g <$> (l ≫= f) = l ≫= (λ x, g <$> f x).
Proof.
  induction l as [|x l IH]; [done|]. by rewrite !bind_cons, fmap_app, IH.
Qed.

Lemma NoDup_fmap_filter {A B} (f : A → B) (p : A → bool) (l : list A) :
  NoDup (f <$> l) → NoDup (f <$> List.filter p l).
Proof.
  induction l as [|x l IH]; [done|]. rewrite fmap_cons. intros [Hx Hnd]%NoDup_cons. simpl.
  destruct (p x); [|by apply IH]. rewrite fmap_cons. apply NoDup_cons. split; [|by apply IH].
  intros (y & Hy & Hin)%list_elem_of_fmap. apply elem_of_filter_bool in Hin as [Hin _].
  apply Hx. apply list_elem_of_fmap. by exists y.
Qed.

(** With original ids free of underscores, the keys assigned for one
    position are pairwise distinct. *)
Lemma position_keys_distinct (selected : list CartItem.t) (i : nat) (value : string) :
  NoDup ((λ item, getOriginalMenuItemId (CartItem.id item)) <$> selected) →
  (∀ item, item ∈ selected →
     JsString.includesChar "_" (getOriginalMenuItemId (CartItem.id item)) = false) →
  NoDup (omap (λ item,
                 field ← CartItem.customFields item ≫= (λ fs, fs !! i);
                 Some (valueKey (getOriginalMenuItemId (CartItem.id item)) i
                                (CustomField.key field), value))
              selected).*1.
Proof.
  induction selected as [|item selected IH]; [constructor|].
  rewrite fmap_cons. intros [Hfresh Hnd]%NoDup_cons Hids. simpl.
  assert (∀ item', item' ∈ selected →
            JsString.includesChar "_" (getOriginalMenuItemId (CartItem.id item')) = false)
    as Hids' by (intros ? ?; apply Hids; by right).
  destruct (CartItem.customFields item ≫= (λ fs, fs !! i)) as [field|]; simpl; [|by apply IH].
  apply NoDup_cons. split; [|by apply IH].
  intros ([k v] & Hk & Hin)%list_elem_of_fmap. simpl in Hk.
  apply list_elem_of_omap in Hin as (item' & Hitem' & Hsome).
  destruct (CartItem.customFields item' ≫= (λ fs, fs !! i)) as [field'|]; [|done].
  simpl in Hsome. injection Hsome as <- <-.
  apply valueKey_inj in Hk as (Hid & _ & _); [|apply Hids; by left|by apply Hids'].
  apply Hfresh. rewrite Hid. apply list_elem_of_fmap. by exists item'.
Qed.

(** In the states the interface produces, the keys of [bulkInputValues] are
    the numerals of positions; when moreover the original ids of the
    selected items contain no underscore, no two assignments of the sync
    effect address the same key. *)
Lemma bulkWrites_distinct (cartItems : list CartItem.t) (st : CheckoutState) :
  NoDup (bulkInputValues st).*1 →
  (∀ k, k ∈ (bulkInputValues st).*1 → ∃ j : nat, k = pretty j) →
  (∀ item, item ∈ selectedItems cartItems (bulkSelectedGames st) →
     JsString.includesChar "_" (getOriginalMenuItemId (CartItem.id item)) = false) →
  NoDup (bulkWrites cartItems st).*1.
Proof.
  intros Hnd Hcanon Hids. unfold bulkWrites.
  set (selected := selectedItems cartItems (bulkSelectedGames st)) in *.
  assert (∀ item, item ∈ selected → item ∈ itemsWithCustomFields cartItems) as Hsub.
  { intros item Hin. by apply selectedItems_elem in Hin as [? _]. }
  assert (NoDup ((λ item, getOriginalMenuItemId (CartItem.id item)) <$> selected)) as Hsel.
  { apply NoDup_fmap_filter. by destruct (itemsWithCustomFields_spec cartItems) as [? _]. }
  assert (∀ e, e ∈ JsObject.entries (bulkInputValues st) →
               e ∈ bulkInputValues st ∧ ∃ j : nat, e.1 = pretty j) as Hentry.
  { intros e He. rewrite entries_elem in He. split; [done|].
    apply Hcanon, list_elem_of_fmap. by exists e. }
  rewrite fmap_of_bind. apply NoDup_bind.
  - intros e1 e2 k He1 He2 Hk1 Hk2.
    apply Hentry in He1 as (He1 & j1 & Hj1). apply Hentry in He2 as (He2 & j2 & Hj2).
    simpl in Hk1, Hk2. rewrite Hj1, bulkWritesFor_position in Hk1 by done.
    rewrite Hj2, bulkWritesFor_position in Hk2 by done.
    apply list_elem_of_fmap in Hk1 as ([k1 v1] & -> & Hin1).
    apply list_elem_of_fmap in Hk2 as ([k2 v2] & Hk & Hin2). simpl in Hk.
    apply list_elem_of_omap in Hin1 as (item1 & Hitem1 & Hsome1).
    apply list_elem_of_omap in Hin2 as (item2 & Hitem2 & Hsome2).
    destruct (CartItem.customFields item1 ≫= (λ fs, fs !! j1)) as [f1|]; [|done].
    destruct (CartItem.customFields item2 ≫= (λ fs, fs !! j2)) as [f2|]; [|done].
    simpl in Hsome1, Hsome2. injection Hsome1 as <- <-. injection Hsome2 as <- <-.
    apply valueKey_inj in Hk as (_ & Hj & _); [|by apply Hids..].
    destruct e1 as [s1 w1], e2 as [s2 w2]. simpl in *. subst.
    f_equal. by apply (NoDup_keys_functional (bulkInputValues st) (pretty j2)).
  - intros e He. apply Hentry in He as (He & j & Hj).
    simpl. rewrite Hj, bulkWritesFor_position by done.
    by apply position_keys_distinct.
  - apply (NoDup_fmap_1 fst). rewrite entries_perm. done.
Qed.

End distinct_assignments.

(** ** Invariants of the interface *)

Section interface.

Lemma JsMap_set_keys {V} (k : string) (v : V) (m : list (string * V)) :
  (NoDup m.*1 → NoDup (JsMap.set k v m).*1)
  ∧ ∀ k', k' ∈ (JsMap.set k v m).*1 ↔ k' = k ∨ k' ∈ m.*1.
Proof.
  induction m as [|[k0 v0] m [IHnd IHkeys]]; simpl.
  - split; [intros _; apply NoDup_singleton|].
    intros k'. rewrite list_elem_of_singleton, elem_of_nil. tauto.
  - destruct (decide (k0 = k)) as [-> |Hne]; simpl.
    + split; [done|]. intros k'. rewrite elem_of_cons. tauto.
    + split.
      * intros [Hfresh Hnd]%NoDup_cons. apply NoDup_cons. split; [|by apply IHnd].
        rewrite IHkeys. intros [?|?]; [by subst|done].
      * intros k'. rewrite !elem_of_cons, IHkeys. tauto.
Qed.

(** Entering bulk values from the interface keeps the keys of
    [bulkInputValues] distinct numerals of positions. *)
Lemma handleBulkInputChange_keys (st : CheckoutState) (i : nat) (value : string) :
  NoDup (bulkInputValues st).*1 →
  (∀ k, k ∈ (bulkInputValues st).*1 → ∃ j : nat, k = pretty j) →
  let entered := handleBulkInputChange (pretty i) value st in
  NoDup (bulkInputValues entered).*1
  ∧ ∀ k, k ∈ (bulkInputValues entered).*1 → ∃ j : nat, k = pretty j.
Proof.
  intros Hnd Hcanon entered. subst entered. unfold handleBulkInputChange, JsObject.assign.
  rewrite bulkInputValues_set.
  destruct (JsMap_set_keys (pretty i) value (bulkInputValues st)) as [Hnd' Hkeys].
  split; [by apply Hnd'|]. intros k [-> |Hk]%Hkeys; [by exists i|by apply Hcanon].
Qed.

End interface.

(** * Further properties *)

(** ** The customer page *)

Section customer_page.

Lemma trySetItem_accessible (k v : string) (items : gmap string string) :
  MainApp.trySetItem k v {| Storage.accessible := true; Storage.items := items |}
  = {| Storage.accessible := true; Storage.items := <[k := v]> items |}.
Proof. reflexivity. Qed.

Lemma viewName_read (v : MainApp.View) :
  (if bool_decide (MainApp.viewName v = "menu") then MainApp.menu
   else if bool_decide (MainApp.viewName v = "cart") then MainApp.cart
   else if bool_decide (MainApp.viewName v = "checkout") then MainApp.checkout
   else MainApp.menu) = v.
Proof. by destruct v. Qed.

(** X1. The page state survives a reload: over a readable store, the view
    and the search text come back as they were persisted and the category
    comes back unless it is empty, in which case "all" is selected. Over a
    store that throws, persisting changes nothing and the page starts on
    the menu with the category "all" and no search text. *)
Theorem page_state_round_trip (st : MainApp.State) (s : Storage.t) :
  (Storage.accessible s = true →
   MainApp.initialState (MainApp.persist st s)
   = {| MainApp.currentView := MainApp.currentView st;
        MainApp.selectedCategory :=
          if bool_decide (MainApp.selectedCategory st = "") then "all"
          else MainApp.selectedCategory st;
        MainApp.searchQuery := MainApp.searchQuery st |})
  ∧ (Storage.accessible s = false →
     MainApp.persist st s = s
     ∧ MainApp.initialState (MainApp.persist st s)
       = {| MainApp.currentView := MainApp.menu;
            MainApp.selectedCategory := "all";
            MainApp.searchQuery := "" |}).
Proof.
  destruct s as [[] items]; split; intros Hacc; try discriminate Hacc.
  - unfold MainApp.persist. rewrite !trySetItem_accessible.
    unfold MainApp.initialState, MainApp.getInitialView, MainApp.getInitialCategory,
      MainApp.getInitialSearch, Storage.getItem. simpl.
    rewrite lookup_insert_eq.
    rewrite (lookup_insert_ne _ MainApp.CUSTOMER_SEARCH_KEY MainApp.CUSTOMER_CATEGORY_KEY)
      by done.
    rewrite lookup_insert_eq.
    rewrite !(lookup_insert_ne _ _ MainApp.CUSTOMER_VIEW_KEY) by done.
    rewrite lookup_insert_eq. rewrite viewName_read.
    f_equal. repeat case_bool_decide; congruence.
  - done.
Qed.

Lemma page_state_round_trip_witness :
  let st := {| MainApp.currentView := MainApp.checkout;
               MainApp.selectedCategory := "popular";
               MainApp.searchQuery := "mobile" |} in
  MainApp.initialState (MainApp.persist st Sample.emptyStore) = st.
Proof.
  intros st.
  exact (proj1 (page_state_round_trip st Sample.emptyStore) eq_refl).
Defined.



End customer_page.

(** ** Orders in flight *)

Section orders_in_flight.

Lemma truthyOpt_Some (x : string) : x ≠ "" → JsString.truthyOpt (Some x) = true.
Proof.
  intros Hx. unfold JsString.truthyOpt, JsString.truthy. simpl.
  by rewrite bool_decide_eq_false_2.
Qed.

Lemma truthyOpt_true (v : option string) :
  JsString.truthyOpt v = true → ∃ x, v = Some x ∧ x ≠ "".
Proof.
  unfold JsString.truthyOpt, JsString.truthy. destruct v as [x|]; simpl.
  - intros Hx%negb_true_iff%bool_decide_eq_false. by exists x.
  - intros Hx. vm_compute in Hx. discriminate Hx.
Qed.





End orders_in_flight.

(** ** Direct orders *)

Section direct_orders.

(** X5. A direct order with a payment method and a receipt calls the
    backend exactly once, with the cart, the method's id, the receipt
    reference and the total. When the backend returns the order, the order
    id and status are tracked, the id is stored and the status modal opens;
    when it returns nothing or throws, the store is untouched and the order
    id and status keep their values, and a throw leaves the "try again"
    error. The field values and the receipt never change, and the placing
    flag is off at the end. *)
Theorem handlePlaceOrderDirect_outcomes (env : Env)
    (createOrder : OrderPayload → Result (option Order.t))
    (st : CheckoutState) (items : gmap string string) (method : PaymentMethod.t) :
  JsString.truthyOpt (paymentMethodUuid st) = true →
  JsString.truthyOpt (receiptImageUrl st) = true →
  selectedPaymentMethod env st = Some method →
  let storage := {| Storage.accessible := true; Storage.items := items |} in
  let payload := {| order_items := cartItems env;
                    customer_info := customerInfo env st method;
                    payment_method_id := PaymentMethod.uuid_id method;
                    receipt_url := JsString.orEmpty (receiptImageUrl st);
                    total_price := totalPrice env |} in
  ∃ st' storage',
    handlePlaceOrderDirect env createOrder st storage = (st', storage', [CreateOrder payload])
    ∧ isPlacingOrder st' = false
    ∧ customFieldValues st' = customFieldValues st
    ∧ receiptImageUrl st' = receiptImageUrl st
    ∧ paymentMethodUuid st' = paymentMethodUuid st
    ∧ match createOrder payload with
      | Ok (Some newOrder) =>
          orderId st' = Some (Order.id newOrder)
          ∧ existingOrderStatus st' = Some (Order.status newOrder)
          ∧ isOrderModalOpen st' = true
          ∧ receiptError st' = None
          ∧ Storage.items storage' = <[CURRENT_ORDER_ID := Order.id newOrder]> items
      | Ok None =>
          storage' = storage ∧ receiptError st' = None
          ∧ orderId st' = orderId st ∧ existingOrderStatus st' = existingOrderStatus st
          ∧ isOrderModalOpen st' = isOrderModalOpen st
      | Throw =>
          storage' = storage ∧ receiptError st' = Some FAILED_TO_PLACE
          ∧ orderId st' = orderId st ∧ existingOrderStatus st' = existingOrderStatus st
          ∧ isOrderModalOpen st' = isOrderModalOpen st
      end.
Proof.
  intros Hpm Hru Hmethod storage payload.
  unfold handlePlaceOrderDirect. rewrite Hpm, Hru, Hmethod. simpl.
  assert (customerInfo env (setReceiptError None (setIsPlacingOrder true st)) method
          = customerInfo env st method) as Hinfo by (by destruct st).
  assert (receiptImageUrl (setReceiptError None (setIsPlacingOrder true st))
          = receiptImageUrl st) as Hurl by (by destruct st).
  rewrite Hinfo, Hurl. fold payload.
  destruct (createOrder payload) as [[newOrder|]|]; simpl.
  - eexists _, _. split; [reflexivity|]. repeat split; by destruct st.
  - eexists _, _. split; [reflexivity|]. repeat split; by destruct st.
  - eexists _, _. split; [reflexivity|]. repeat split; by destruct st.
Qed.

Lemma handlePlaceOrderDirect_outcomes_witness :
  let env := Sample.env [Sample.plain] in
  let st := Sample.state (Some "pm-1") (Some "https://cdn/r.png") {[ "default_ign" := "Rei" ]} in
  ∃ st' storage',
    handlePlaceOrderDirect env Sample.backend st Sample.emptyStore
    = (st', storage',
       [CreateOrder {| order_items := [Sample.plain];
                       customer_info := [("Payment Method", "GCash"); ("IGN", "Rei")];
                       payment_method_id := "pm-1";
                       receipt_url := "https://cdn/r.png";
                       total_price := 100 |}])
    ∧ orderId st' = Some "o-1"
    ∧ Storage.items storage' !! CURRENT_ORDER_ID = Some "o-1".
Proof.
  intros env st.
  destruct (handlePlaceOrderDirect_outcomes env Sample.backend st ∅ Sample.gcash)
    as (st' & storage' & Hrun & _ & _ & _ & _ & Hid & _ & _ & _ & Hstore);
    [reflexivity..|].
  exists st', storage'. split; [exact Hrun|]. split; [exact Hid|].
  rewrite Hstore. apply lookup_insert_eq.
Defined.

(** X6. A payment method id that matches no payment method (a method that
    was removed since the id was stored) stays selected: the restore effect
    leaves the state alone and the place-order button is enabled once a
    receipt is there, but the order is rejected with the "select a payment
    method" error, without any backend call, and the message names no
    payment method. *)
Theorem stale_payment_method_is_rejected (env : Env)
    (createOrder : OrderPayload → Result (option Order.t))
    (st : CheckoutState) (storage : Storage.t) (id : string) :
  paymentMethodUuid st = Some id →
  id ≠ "" →
  JsString.truthyOpt (receiptImageUrl st) = true →
  (∀ method, method ∈ paymentMethods env → PaymentMethod.uuid_id method ≠ id) →
  selectedPaymentMethod env st = None
  ∧ placeOrderDisabled false st = isPlacingOrder st
  ∧ handlePlaceOrderDirect env createOrder st storage
    = (setReceiptError (Some "Please select a payment method") st, storage, [])
  ∧ (Storage.accessible storage = true →
     Storage.items storage !! CHECKOUT_STORAGE_KEYS.paymentMethodUuid = Some id →
     restorePaymentMethod env st storage = Ok st).
Proof.
  intros Hpm Hid Hru Hstale.
  assert (selectedPaymentMethod env st = None) as Hnone.
  { unfold selectedPaymentMethod. apply find_none. intros method Hin.
    apply bool_decide_eq_false. rewrite Hpm. intros [= Heq]. by apply (Hstale method). }
  assert (JsString.truthyOpt (paymentMethodUuid st) = true) as Htruthy.
  { rewrite Hpm. by apply truthyOpt_Some. }
  split; [done|]. split; [|split].
  - unfold placeOrderDisabled. by rewrite Htruthy, Hru.
  - unfold handlePlaceOrderDirect. by rewrite Htruthy, Hru, Hnone.
  - intros Hacc Hstored. unfold restorePaymentMethod, Storage.getItem.
    rewrite Hacc. simpl. rewrite Hstored. simpl.
    rewrite find_none; [by destruct (_ && _)|].
    intros method Hin. apply bool_decide_eq_false. by apply Hstale.
Qed.

Lemma stale_payment_method_witness :
  let st := Sample.state (Some "pm-gone") (Some "https://cdn/r.png") ∅ in
  handlePlaceOrderDirect (Sample.env [Sample.plain]) Sample.backend st Sample.emptyStore
  = (setReceiptError (Some "Please select a payment method") st, Sample.emptyStore, []).
Proof.
  intros st.
  destruct (stale_payment_method_is_rejected (Sample.env [Sample.plain]) Sample.backend st
              Sample.emptyStore "pm-gone") as (_ & _ & Hrun & _).
  - reflexivity.
  - discriminate.
  - reflexivity.
  - intros method [-> |Hin%elem_of_nil]%elem_of_cons; [discriminate|done].
  - exact Hrun.
Defined.

End direct_orders.

(** ** The customer details *)

Section customer_details.







End customer_details.

(** ** The receipt upload *)

Section receipt_upload.


(** X10. The text handed to the clipboard is the order message, and a
    successful copy changes nothing the message depends on. After it, with
    a payment method and a receipt in place and no upload running, the
    Messenger button is enabled, it stays enabled when the "Copied!" label
    times out, and pressing it opens one window whose link carries exactly
    the copied message; a failed copy leaves the state as it was. *)
Theorem copied_message_is_the_message_sent (env : Env) (st : CheckoutState) :
  let copiedState := (handleCopyMessage env true st).1 in
  (handleCopyMessage env true st).2 = generateOrderMessage env st
  ∧ generateOrderMessage env copiedState = generateOrderMessage env st
  ∧ handleCopyMessage env false st = (st, generateOrderMessage env st)
  ∧ (JsString.truthyOpt (paymentMethodUuid st) = true →
     JsString.truthyOpt (receiptImageUrl st) = true →
     messengerDisabled false copiedState = false
     ∧ messengerDisabled false (copiedTimeout copiedState) = false
     ∧ handlePlaceOrder env copiedState
       = (copiedState,
          [WindowOpen ("https://m.me/779999235186541?text="
                         +:+ Uri.encodeURIComponent (generateOrderMessage env st))
                      "_blank"])).
Proof.
  intros copiedState.
  assert (generateOrderMessage env copiedState = generateOrderMessage env st) as Hsame.
  { subst copiedState. by destruct st. }
  split; [done|]. split; [done|]. split; [done|].
  intros Hpm Hru.
  assert (paymentMethodUuid copiedState = paymentMethodUuid st) as Hpm' by (by destruct st).
  assert (receiptImageUrl copiedState = receiptImageUrl st) as Hru' by (by destruct st).
  split; [|split].
  - unfold messengerDisabled. rewrite Hpm', Hru', Hpm, Hru. by destruct st.
  - unfold messengerDisabled.
    assert (paymentMethodUuid (copiedTimeout copiedState) = paymentMethodUuid st) as ->
      by (by destruct st).
    assert (receiptImageUrl (copiedTimeout copiedState) = receiptImageUrl st) as ->
      by (by destruct st).
    rewrite Hpm, Hru. by destruct st.
  - unfold handlePlaceOrder. by rewrite Hpm', Hru', Hpm, Hru, Hsame.
Qed.

Lemma copied_message_witness :
  let env := Sample.env [Sample.plain] in
  let st := Sample.state (Some "pm-1") (Some "https://cdn/r.png") {[ "default_ign" := "Rei" ]} in
  messengerDisabled false st = true
  ∧ messengerDisabled false (handleCopyMessage env true st).1 = false.
Proof.
  intros env st. split; [reflexivity|].
  destruct (copied_message_is_the_message_sent env st) as (_ & _ & _ & Henabled).
  by destruct Henabled as [Hoff _].
Defined.

(** X11. Removing the receipt disables the copy button and both
    place-order buttons, whatever the rest of the state, and brings the
    file input back; when a new receipt is then uploaded, the Messenger
    button stays disabled until the message is copied again. *)
Theorem receipt_removal_disables_submission (st : CheckoutState) (uploading : bool)
    (file dataUrl url : string) :
  let removed := handleReceiptRemove st in
  let again := foldl uploadStep removed
                 [UploadStarted file; PreviewLoaded dataUrl; UploadSucceeded url] in
  copyDisabled uploading removed = true
  ∧ placeOrderDisabled uploading removed = true
  ∧ messengerDisabled uploading removed = true
  ∧ showUploadInput removed = true
  ∧ messengerDisabled uploading again = true
  ∧ hasCopiedMessage again = false.
Proof.
  destruct st, uploading; cbv zeta; simpl; repeat split;
    unfold copyDisabled, placeOrderDisabled, messengerDisabled; simpl;
    rewrite ?orb_true_r; reflexivity.
Qed.

End receipt_upload.

(** ** The Messenger link *)

Section messenger_link.

Lemma hexDigit_unreserved (n : N) : (n < 16)%N → Uri.unreserved (Uri.hexDigit n) = true.
Proof.
  intros Hn.
  assert (n = 0 ∨ n = 1 ∨ n = 2 ∨ n = 3 ∨ n = 4 ∨ n = 5 ∨ n = 6 ∨ n = 7 ∨ n = 8
          ∨ n = 9 ∨ n = 10 ∨ n = 11 ∨ n = 12 ∨ n = 13 ∨ n = 14 ∨ n = 15)%N as Hcases by lia.
  repeat (destruct Hcases as [-> |Hcases]; [reflexivity|]). by subst.
Qed.

Lemma hexDigit_inj (n m : N) :
  (n < 16)%N → (m < 16)%N → Uri.hexDigit n = Uri.hexDigit m → n = m.
Proof.
  intros Hn Hm Heq.
  apply (f_equal N_of_ascii) in Heq. unfold Uri.hexDigit in Heq.
  assert (∀ k, (k < 256)%N → N_of_ascii (ascii_of_N k) = k) as Hround.
  { intros k Hk. apply N_ascii_embedding. done. }
  repeat case_bool_decide; rewrite !Hround in Heq by lia; lia.
Qed.

Lemma percent_reserved : Uri.unreserved "%" = false.
Proof. reflexivity. Qed.

Lemma byte_nibbles (c : ascii) :
  (N_of_ascii c / 16 < 16)%N ∧ (N_of_ascii c mod 16 < 16)%N.
Proof.
  pose proof (N_ascii_bounded c) as Hc. split.
  - apply N.Div0.div_lt_upper_bound. lia.
  - apply N.mod_lt. lia.
Qed.

(** The encoded text is made of unreserved characters and percent escapes
    only, and different texts have different encodings. *)
Lemma encodeURIComponent_is_safe_and_injective :
  (∀ s c, JsString.includesChar c (Uri.encodeURIComponent s) = true →
          Uri.unreserved c = true ∨ c = "%"%char)
  ∧ (∀ s c, c ∈ ["&"; "="; "#"; "?"; " "; "/"]%char →
            JsString.includesChar c (Uri.encodeURIComponent s) = false)
  ∧ (∀ s1 s2, Uri.encodeURIComponent s1 = Uri.encodeURIComponent s2 → s1 = s2).
Proof.
  assert (∀ s c, JsString.includesChar c (Uri.encodeURIComponent s) = true →
                 Uri.unreserved c = true ∨ c = "%"%char) as Hsafe.
  { induction s as [|a s IH]; intros c; simpl; [done|].
    destruct (Uri.unreserved a) eqn:Ha; simpl.
    - intros [Hc%bool_decide_eq_true|Hc]%orb_true_iff; [left; by subst|by apply IH].
    - destruct (byte_nibbles a) as [Hhi Hlo].
      intros [Hc%bool_decide_eq_true|[Hc%bool_decide_eq_true|[Hc%bool_decide_eq_true|Hc]
              %orb_true_iff]%orb_true_iff]%orb_true_iff.
      + by right.
      + left. subst c. by apply hexDigit_unreserved.
      + left. subst c. by apply hexDigit_unreserved.
      + by apply IH. }
  split; [exact Hsafe|]. split.
  - intros s c Hc. destruct (JsString.includesChar c _) eqn:Hin; [|done].
    apply Hsafe in Hin.
    repeat (apply elem_of_cons in Hc as [-> |Hc]; [by destruct Hin|]).
    by apply elem_of_nil in Hc.
  - induction s1 as [|a s1 IH]; intros [|b s2]; simpl.
    + done.
    + by destruct (Uri.unreserved b).
    + by destruct (Uri.unreserved a).
    + destruct (Uri.unreserved a) eqn:Ha, (Uri.unreserved b) eqn:Hb.
      * intros [= -> Heq]. by rewrite (IH s2 Heq).
      * intros [= -> _]. by rewrite percent_reserved in Ha.
      * intros [= <- _]. by rewrite percent_reserved in Hb.
      * intros [= Hhi Hlo Heq].
        destruct (byte_nibbles a) as [? ?], (byte_nibbles b) as [? ?].
        apply hexDigit_inj in Hhi; [|done..]. apply hexDigit_inj in Hlo; [|done..].
        assert (N_of_ascii a = N_of_ascii b) as Hab.
        { rewrite (N.div_mod (N_of_ascii a) 16), (N.div_mod (N_of_ascii b) 16) by lia.
          by rewrite Hhi, Hlo. }
        apply (f_equal ascii_of_N) in Hab. rewrite !ascii_N_embedding in Hab.
        by rewrite Hab, (IH s2 Heq).
Qed.

(** X12. Whenever [handlePlaceOrder] opens a window, it is one window on
    the Messenger link followed by the encoded order message; the encoded
    text holds none of the characters that would end the parameter or start
    another one, and two states whose messages differ open different
    links. *)
Theorem messenger_link_is_well_formed (env : Env) (st : CheckoutState)
    (url target : string) (others : list Effect) :
  (handlePlaceOrder env st).2 = WindowOpen url target :: others →
  others = [] ∧ target = "_blank"
  ∧ url = "https://m.me/779999235186541?text="
            +:+ Uri.encodeURIComponent (generateOrderMessage env st)
  ∧ (∀ c, c ∈ ["&"; "="; "#"; "?"; " "; "/"]%char →
          JsString.includesChar c (Uri.encodeURIComponent (generateOrderMessage env st))
          = false)
  ∧ (∀ env' st', (handlePlaceOrder env' st').2 = [WindowOpen url target] →
                 generateOrderMessage env' st' = generateOrderMessage env st).
Proof.
  destruct encodeURIComponent_is_safe_and_injective as (_ & Hsafe & Hinj).
  assert (∀ e s u t l, (handlePlaceOrder e s).2 = WindowOpen u t :: l →
            l = [] ∧ t = "_blank"
            ∧ u = "https://m.me/779999235186541?text="
                    +:+ Uri.encodeURIComponent (generateOrderMessage e s)) as Hopen.
  { intros e s u t l. unfold handlePlaceOrder.
    destruct (negb (JsString.truthyOpt (paymentMethodUuid s))); [done|].
    destruct (negb (JsString.truthyOpt (receiptImageUrl s))); [done|].
    simpl. by intros [= <- <- <-]. }
  intros Hrun. destruct (Hopen _ _ _ _ _ Hrun) as (-> & -> & Hurl).
  split; [done|]. split; [done|]. split; [done|]. split; [intros c; apply Hsafe|].
  intros env' st' Hrun'. destruct (Hopen _ _ _ _ _ Hrun') as (_ & _ & Hurl').
  rewrite Hurl in Hurl'. apply (inj (String.app _)) in Hurl'. symmetry. by apply Hinj.
Qed.

Lemma messenger_link_witness :
  let env := Sample.env [Sample.plain] in
  let st := Sample.state (Some "pm-1") (Some "https://cdn/r.png") {[ "default_ign" := "Rei" ]} in
  JsString.includesChar "&"
    (Uri.encodeURIComponent (generateOrderMessage env st)) = false.
Proof.
  intros env st.
  destruct (messenger_link_is_well_formed env st
              ("https://m.me/779999235186541?text="
                 +:+ Uri.encodeURIComponent (generateOrderMessage env st)) "_blank" [])
    as (_ & _ & _ & Hsafe & _).
  - reflexivity.
  - apply Hsafe. by left.
Defined.

End messenger_link.

(** ** The text of the order message *)

Section message_text.

Lemma rev_app_rev (a acc : string) : String.rev_app a acc = String.rev a +:+ acc.
Proof. unfold String.rev. by rewrite rev_app_append. Qed.

Lemma rev_cons (c : ascii) (a : string) :
  String.rev (String c a) = String.rev a +:+ String c "".
Proof. unfold String.rev at 1. simpl. by rewrite rev_app_rev. Qed.

Lemma rev_append (a b : string) : String.rev (a +:+ b) = String.rev b +:+ String.rev a.
Proof.
  induction a as [|c a IH].
  - by rewrite append_empty_l, append_empty_r.
  - by rewrite append_cons, !rev_cons, IH, append_assoc.
Qed.

Lemma rev_involutive (a : string) : String.rev (String.rev a) = a.
Proof.
  induction a as [|c a IH]; [done|].
  by rewrite rev_cons, rev_append, IH.
Qed.

(** Trimming a text that is wrapped as the template wraps the message
    gives the text back, when it neither starts nor ends with white space. *)
Lemma trim_wrapped (x : string) :
  JsString.trimStart x = x →
  JsString.trimStart (String.rev x) = String.rev x →
  JsString.trim (LF +:+ x +:+ LF +:+ "    ") = x.
Proof.
  intros Hstart Hend. destruct (decide (x = "")) as [-> |Hx]; [reflexivity|].
  unfold JsString.trim.
  assert (JsString.trimStart (LF +:+ x +:+ LF +:+ "    ") = x +:+ LF +:+ "    ") as ->.
  { change (LF +:+ x +:+ LF +:+ "    ")
      with (String (ascii_of_nat 10) (x +:+ LF +:+ "    ")).
    simpl JsString.trimStart.
    destruct x as [|c x]; [done|]. rewrite append_cons. simpl in *.
    destruct (JsString.isWhiteSpace c); [|done].
    exfalso. apply (f_equal String.length) in Hstart. simpl in Hstart.
    assert (∀ s, String.length (JsString.trimStart s) ≤ String.length s) as Hle.
    { induction s as [|a s IH]; simpl; [done|].
      destruct (JsString.isWhiteSpace a); simpl; lia. }
    specialize (Hle x). lia. }
  rewrite rev_append.
  change (String.rev (LF +:+ "    "))
    with (String " " (String " " (String " " (String " " (String (ascii_of_nat 10) ""))))).
  rewrite !append_cons, append_empty_l. simpl JsString.trimStart.
  by rewrite Hend, rev_involutive.
Qed.

(** The message is the template, filled in. *)
Lemma generateOrderMessage_template (env : Env) (st : CheckoutState) :
  generateOrderMessage env st
  = "🛒 Reina Shop ORDER" +:+ LF
    +:+ LF +:+ customFieldsSection env st +:+ LF
    +:+ LF +:+ "📋 ORDER DETAILS:" +:+ LF
    +:+ JsString.join LF (itemDetails <$> cartItems env) +:+ LF
    +:+ LF +:+ "💰 TOTAL: ₱" +:+ pretty (totalPrice env) +:+ LF
    +:+ LF +:+ "💳 Payment: "
    +:+ default "" (PaymentMethod.name <$> selectedPaymentMethod env st) +:+ LF
    +:+ LF +:+ "📸 Payment Receipt: " +:+ JsString.orEmpty (receiptImageUrl st) +:+ LF
    +:+ LF +:+ "Please confirm this order to proceed. Thank you for choosing Reina Shop! 🎮".
Proof.
  unfold generateOrderMessage.
  set (closing := "Please confirm this order to proceed. Thank you for choosing Reina Shop! 🎮").
  set (middle := LF +:+ LF +:+ customFieldsSection env st +:+ LF
    +:+ LF +:+ "📋 ORDER DETAILS:" +:+ LF
    +:+ JsString.join LF (itemDetails <$> cartItems env) +:+ LF
    +:+ LF +:+ "💰 TOTAL: ₱" +:+ pretty (totalPrice env) +:+ LF
    +:+ LF +:+ "💳 Payment: "
    +:+ default "" (PaymentMethod.name <$> selectedPaymentMethod env st) +:+ LF
    +:+ LF +:+ "📸 Payment Receipt: " +:+ JsString.orEmpty (receiptImageUrl st) +:+ LF
    +:+ LF).
  transitivity (JsString.trim
                  (LF +:+ ("🛒 Reina Shop ORDER" +:+ middle +:+ closing) +:+ LF +:+ "    ")).
  { f_equal. subst middle. by rewrite !append_assoc. }
  rewrite trim_wrapped.
  - subst middle. by rewrite !append_assoc.
  - reflexivity.
  - rewrite <- append_assoc, rev_append.
    remember (String.rev closing) as tail eqn:Htail. vm_compute in Htail. subst tail.
    reflexivity.
Qed.

(** X13. The order message is the template filled in, byte for byte: the
    final trim removes the white space around the template and nothing of
    the header, the custom-fields section, the order lines, the total, the
    payment method, the receipt reference or the closing line, whatever the
    names and answers contain. *)
Theorem order_message_is_the_filled_template (env : Env) (st : CheckoutState) :
  generateOrderMessage env st
  = "🛒 Reina Shop ORDER" +:+ LF
    +:+ LF +:+ customFieldsSection env st +:+ LF
    +:+ LF +:+ "📋 ORDER DETAILS:" +:+ LF
    +:+ JsString.join LF (itemDetails <$> cartItems env) +:+ LF
    +:+ LF +:+ "💰 TOTAL: ₱" +:+ pretty (totalPrice env) +:+ LF
    +:+ LF +:+ "💳 Payment: "
    +:+ default "" (PaymentMethod.name <$> selectedPaymentMethod env st) +:+ LF
    +:+ LF +:+ "📸 Payment Receipt: " +:+ JsString.orEmpty (receiptImageUrl st) +:+ LF
    +:+ LF +:+ "Please confirm this order to proceed. Thank you for choosing Reina Shop! 🎮".
Proof. apply generateOrderMessage_template. Qed.

End message_text.

(** ** The custom-fields section of the message *)

Section fields_section.

Lemma append_nil_inv (a b : string) : a +:+ b = "" → a = "" ∧ b = "".
Proof. destruct a as [|c a]; [done|]. by rewrite append_cons. Qed.

(** A text that contains the separator splits into at least two pieces. *)
Lemma split_go_present (sep cur s : string) :
  sep ≠ "" → (∃ p r, s = p +:+ sep +:+ r) →
  1 < length (JsString.split_go sep 0 cur s).
Proof.
  intros Hsep. revert cur. induction s as [|c s IH]; intros cur (p & r & Hs).
  - symmetry in Hs. apply append_nil_inv in Hs as [_ Hs].
    apply append_nil_inv in Hs as [Hs _]. done.
  - simpl JsString.split_go.
    destruct (JsString.startsWith sep (String c s)) eqn:Hstart.
    + pose proof (split_go_not_nil sep (String.length sep - 1) "" s) as Hrest.
      destruct (JsString.split_go sep (String.length sep - 1) "" s); [done|]. simpl. lia.
    + apply IH. destruct p as [|c' p].
      * rewrite append_empty_l in Hs.
        assert (JsString.startsWith sep (String c s) = true) as Hyes.
        { apply startsWith_spec. by exists r. }
        congruence.
      * rewrite append_cons in Hs. injection Hs as _ Hs. by exists p, r.
Qed.

Lemma includes_append (sub a b : string) :
  sub ≠ "" → JsString.includes sub (a +:+ sub +:+ b) = true.
Proof.
  intros Hsub. unfold JsString.includes, JsString.occurrences, JsString.split.
  apply bool_decide_eq_true.
  pose proof (split_go_present sub "" (a +:+ sub +:+ b) Hsub) as Hlen.
  specialize (Hlen ltac:(by exists a, b)). lia.
Qed.

Lemma no_fields_no_view (cartItems : list CartItem.t) :
  (∀ item, item ∈ cartItems → hasFields item = false) →
  itemsWithCustomFields cartItems = [].
Proof.
  intros Hnone. destruct (itemsWithCustomFields cartItems) as [|item items] eqn:Hview; [done|].
  destruct (itemsWithCustomFields_spec cartItems) as (_ & Hsub & _).
  destruct (Hsub item) as [Hin Hf]; [rewrite Hview; by left|].
  rewrite (Hnone item Hin) in Hf. discriminate Hf.
Qed.

(** X14. For a cart in which no item carries custom fields, the
    custom-fields section of the message is the fallback line "IGN:" with
    the value stored under [default_ign] (empty when there is none), and
    the composed message contains that line. *)
Theorem fallback_ign_line_in_message (env : Env) (st : CheckoutState) :
  (∀ item, item ∈ cartItems env → hasFields item = false) →
  let line := "🎮 IGN: " +:+ JsString.orEmpty (customFieldValues st !! "default_ign") in
  customFieldsSection env st = line
  ∧ JsString.includes line (generateOrderMessage env st) = true.
Proof.
  intros Hnone line.
  assert (customFieldsSection env st = line) as Hsection.
  { unfold customFieldsSection, hasAnyCustomFields. by rewrite no_fields_no_view. }
  split; [done|].
  rewrite generateOrderMessage_template, Hsection.
  rewrite <- (append_assoc LF LF), <- (append_assoc "🛒 Reina Shop ORDER" (LF +:+ LF)).
  apply includes_append. by subst line.
Qed.

Lemma fallback_ign_line_witness :
  JsString.includes "🎮 IGN: Rei"
    (generateOrderMessage (Sample.env [Sample.plain])
       (Sample.state None None {[ "default_ign" := "Rei" ]})) = true.
Proof.
  refine (proj2 (fallback_ign_line_in_message (Sample.env [Sample.plain])
                   (Sample.state None None {[ "default_ign" := "Rei" ]}) _)).
  intros item ->%list_elem_of_singleton. reflexivity.
Defined.

(** X15. When the composer reads the same non-empty answers for every
    field-bearing item, the custom-fields section is a single block: the
    names of the items in cart order, one per line, followed by one line of
    answers; for a single shared answer that line is "label: value". *)
Theorem shared_answers_form_one_block (env : Env) (st : CheckoutState)
    (fields : list (string * string)) :
  itemsWithCustomFields (cartItems env) ≠ [] →
  fields ≠ [] →
  (∀ item, item ∈ itemsWithCustomFields (cartItems env) →
           messageFields (customFieldValues st) item = fields) →
  let names := CartItem.name <$> itemsWithCustomFields (cartItems env) in
  ∃ answers,
    groupSections names fields = [JsString.join LF names; answers]
    ∧ customFieldsSection env st = JsString.join LF names +:+ LF +:+ answers
    ∧ (∀ label value, fields = [(label, value)] → answers = label +:+ ": " +:+ value).
Proof.
  intros Hitems Hfields Hshared names.
  assert (∃ answers, groupSections names fields = [JsString.join LF names; answers]
                     ∧ (∀ label value, fields = [(label, value)] →
                                       answers = label +:+ ": " +:+ value))
    as (answers & Hgroup & Hsingle).
  { unfold groupSections. rewrite bool_decide_eq_false_2.
    - destruct (_ && _) eqn:Hsame.
      + eexists. split; [reflexivity|]. intros label value ->. simpl in Hsame.
        rewrite andb_false_r in Hsame. discriminate Hsame.
      + eexists. split; [reflexivity|]. by intros label value ->.
    - subst names. rewrite length_fmap. intros [Hn|Hn].
      + by apply nil_length_inv in Hn.
      + by apply nil_length_inv in Hn. }
  exists answers. split; [done|]. split; [|done].
  unfold customFieldsSection, hasAnyCustomFields.
  rewrite bool_decide_eq_true_2.
  - rewrite (gamesByFieldValues_shared _ _ fields) by done.
    rewrite bind_singleton. simpl. fold names. rewrite Hgroup. reflexivity.
  - destruct (itemsWithCustomFields (cartItems env)); [done|simpl; lia].
Qed.

Lemma shared_answers_witness :
  customFieldsSection (Sample.env [Sample.gameA; Sample.gameB])
    (Sample.state None None {[ "a_ign" := "X"; "b_ign" := "X" ]})
  = "A" +:+ LF +:+ "B" +:+ LF +:+ "IGN: X".
Proof.
  destruct (shared_answers_form_one_block (Sample.env [Sample.gameA; Sample.gameB])
              (Sample.state None None {[ "a_ign" := "X"; "b_ign" := "X" ]}) [("IGN", "X")])
    as (answers & _ & Hsection & Hsingle).
  - vm_compute. discriminate.
  - discriminate.
  - intros item Hitem.
    assert (itemsWithCustomFields (cartItems (Sample.env [Sample.gameA; Sample.gameB]))
            = [Sample.gameA; Sample.gameB]) as Hview by (vm_compute; reflexivity).
    rewrite Hview in Hitem.
    apply elem_of_cons in Hitem as [-> |Hitem]; [vm_compute; reflexivity|].
    apply list_elem_of_singleton in Hitem as ->. vm_compute. reflexivity.
  - rewrite Hsection, (Hsingle "IGN" "X" eq_refl). vm_compute. reflexivity.
Defined.

(** X16. The fallback in-game-name input replaces the per-game inputs
    exactly when no cart item carries custom fields. *)
Theorem fallback_shown_iff_no_fields (cartItems : list CartItem.t) :
  hasAnyCustomFields cartItems = false ↔ ∀ item, item ∈ cartItems → hasFields item = false.
Proof.
  unfold hasAnyCustomFields. split.
  - intros Hnone%bool_decide_eq_false item Hin.
    destruct (hasFields item) eqn:Hf; [|done].
    destruct (itemsWithCustomFields_spec cartItems) as (_ & _ & Hall).
    specialize (Hall item Hin Hf).
    destruct (itemsWithCustomFields cartItems); [by apply elem_of_nil in Hall|].
    simpl in Hnone. lia.
  - intros Hnone. rewrite no_fields_no_view by done. reflexivity.
Qed.

End fields_section.

(** ** The bulk fan-out, end to end *)

Section bulk_fan_out.

(** Every assignment of the sync effect addresses a field key of a
    selected item. *)
Lemma bulkWrites_shape (cartItems : list CartItem.t) (st : CheckoutState) (k v : string) :
  (k, v) ∈ bulkWrites cartItems st →
  ∃ item n fieldKey,
    item ∈ selectedItems cartItems (bulkSelectedGames st)
    ∧ k = valueKey (getOriginalMenuItemId (CartItem.id item)) n fieldKey.
Proof.
  unfold bulkWrites. intros (entry & Hin & _)%list_elem_of_bind.
  unfold bulkWritesFor in Hin.
  destruct (JsNumber.parseInt entry.1) as [fieldIndex|]; [|by apply elem_of_nil in Hin].
  apply list_elem_of_bind in Hin as (item & Hin & Hitem).
  destruct (CartItem.customFields item ≫= _) as [field|]; [|by apply elem_of_nil in Hin].
  destruct (list_find _ _) as [found|]; [|by apply elem_of_nil in Hin].
  apply list_elem_of_singleton in Hin. injection Hin as -> _. eauto.
Qed.

Lemma bulkWrites_no_selection (cartItems : list CartItem.t) (st : CheckoutState) :
  bulkSelectedGames st = [] → bulkWrites cartItems st = [].
Proof.
  intros Hnone. destruct (bulkWrites cartItems st) as [|[k v] writes] eqn:Hwrites; [done|].
  destruct (bulkWrites_shape cartItems st k v) as (item & _ & _ & Hitem & _);
    [rewrite Hwrites; by left|].
  rewrite Hnone, selectedItems_none in Hitem. by apply elem_of_nil in Hitem.
Qed.

(** The sync effect merges its assignments over the field values and
    touches no other cell. *)
Lemma bulkSync_spec (cartItems : list CartItem.t) (st : CheckoutState) :
  bulkSync cartItems st
  = setCustomFieldValues (λ prev, bulkUpdates cartItems st ∪ prev) st.
Proof.
  assert (bulkUpdates cartItems st = ∅ →
          st = setCustomFieldValues (λ prev, bulkUpdates cartItems st ∪ prev) st) as Hidle.
  { intros ->. destruct st. simpl. f_equal. by rewrite (left_id_L ∅ (∪)). }
  unfold bulkSync. case_bool_decide as Hnone.
  - apply Hidle. apply nil_length_inv in Hnone.
    unfold bulkUpdates. by rewrite bulkWrites_no_selection.
  - case_bool_decide as Hsize; [done|]. apply Hidle.
    apply map_size_empty_inv. lia.
Qed.

Lemma bulkUpdates_setCustomFieldValues (cartItems : list CartItem.t) (st : CheckoutState)
    (f : gmap string string → gmap string string) :
  bulkUpdates cartItems (setCustomFieldValues f st) = bulkUpdates cartItems st.
Proof. by destruct st. Qed.

(** X17. After the sync effect every selected game holds, at each position
    that has a bulk value, that value: with the keys of the bulk values
    distinct numerals (as the bulk inputs write them) and the original ids
    of the selected games free of underscores, the field at position [i] of
    every selected game reads the value entered for position [i]. *)
Theorem bulk_sync_fills_selected_fields
    (cartItems : list CartItem.t) (st : CheckoutState) (i : nat) (value : string)
    (item : CartItem.t) (field : CustomField.t) :
  NoDup (bulkInputValues st).*1 →
  (∀ k, k ∈ (bulkInputValues st).*1 → ∃ j : nat, k = pretty j) →
  (∀ item', item' ∈ selectedItems cartItems (bulkSelectedGames st) →
     JsString.includesChar "_" (getOriginalMenuItemId (CartItem.id item')) = false) →
  (pretty i, value) ∈ bulkInputValues st →
  item ∈ selectedItems cartItems (bulkSelectedGames st) →
  CartItem.customFields item ≫= (λ fs, fs !! i) = Some field →
  customFieldValues (bulkSync cartItems st)
    !! valueKey (getOriginalMenuItemId (CartItem.id item)) i (CustomField.key field)
  = Some value.
Proof.
  intros Hnd Hcanon Hids Hentry Hitem Hfield.
  rewrite bulkSync_spec, customFieldValues_set. apply lookup_union_Some_l.
  destruct (assignments_lookup (bulkWrites cartItems st) ∅
              (valueKey (getOriginalMenuItemId (CartItem.id item)) i (CustomField.key field)))
    as (_ & _ & Hlast).
  apply Hlast; [by apply bulkWrites_distinct|].
  unfold bulkWrites. apply list_elem_of_bind. exists (pretty i, value).
  split; [|by apply entries_elem]. simpl.
  rewrite bulkWritesFor_position.
  - apply list_elem_of_omap. exists item. split; [done|]. by rewrite Hfield.
  - intros item' Hin. by apply selectedItems_elem in Hin as [? _].
Qed.

Lemma bulk_sync_fills_witness :
  let cart := [Sample.game2; Sample.game3] in
  let st := handleBulkInputChange (pretty 1) "8001"
              (handleBulkGameSelectionChange (CartItem.id Sample.game3) true
                 (handleBulkGameSelectionChange (CartItem.id Sample.game2) true
                    (Sample.state None None {[ "g3_1_server" := "typed by hand" ]}))) in
  customFieldValues (bulkSync cart st) !! "g3_1_server" = Some "8001".
Proof.
  intros cart st.
  apply (bulk_sync_fills_selected_fields cart st 1 "8001" Sample.game3
           (Sample.field "server" "Server" true)).
  - apply (bool_decide_unpack _). vm_compute. exact I.
  - intros k Hk. exists 1. vm_compute in Hk.
    by apply list_elem_of_singleton in Hk.
  - intros item' Hin.
    assert (selectedItems cart (bulkSelectedGames st) = [Sample.game2; Sample.game3]) as Hsel
      by (vm_compute; reflexivity).
    rewrite Hsel in Hin.
    apply elem_of_cons in Hin as [-> |Hin]; [vm_compute; reflexivity|].
    apply list_elem_of_singleton in Hin as ->. vm_compute. reflexivity.
  - vm_compute. by left.
  - assert (selectedItems cart (bulkSelectedGames st) = [Sample.game2; Sample.game3]) as Hsel
      by (vm_compute; reflexivity).
    rewrite Hsel. right. by left.
  - reflexivity.
Defined.

(** X18. The sync effect never reaches a game that is not selected: with
    original ids free of underscores, every field key of a game whose
    original id is not in the bulk selection keeps its value. In
    particular, unticking a game leaves the values it received. *)
Theorem bulk_sync_leaves_unselected_games
    (cartItems : list CartItem.t) (st : CheckoutState)
    (originalId : string) (i : nat) (fieldKey : string) :
  JsString.includesChar "_" originalId = false →
  (∀ item, item ∈ selectedItems cartItems (bulkSelectedGames st) →
     JsString.includesChar "_" (getOriginalMenuItemId (CartItem.id item)) = false) →
  originalId ∉ bulkSelectedGames st →
  customFieldValues (bulkSync cartItems st) !! valueKey originalId i fieldKey
  = customFieldValues st !! valueKey originalId i fieldKey.
Proof.
  intros Hid Hids Hout.
  rewrite bulkSync_spec, customFieldValues_set. apply lookup_union_r.
  destruct (assignments_lookup (bulkWrites cartItems st) ∅ (valueKey originalId i fieldKey))
    as (Hmiss & _ & _).
  unfold bulkUpdates. rewrite Hmiss; [by rewrite lookup_empty|].
  intros ([k v] & Hk & Hin)%list_elem_of_fmap. simpl in Hk. subst k.
  apply bulkWrites_shape in Hin as (item & n & fieldKey' & Hitem & Hkey).
  apply valueKey_inj in Hkey as (-> & _ & _); [|done|by apply Hids].
  apply selectedItems_elem in Hitem as [_ Hitem]. done.
Qed.

Lemma bulk_sync_unticked_witness :
  let cart := [Sample.game2; Sample.game3] in
  let st := handleBulkInputChange (pretty 0) "777"
              (handleBulkGameSelectionChange (CartItem.id Sample.game3) true
                 (handleBulkGameSelectionChange (CartItem.id Sample.game2) true
                    (Sample.state None None ∅))) in
  let unticked := handleBulkInputChange (pretty 0) "999"
                    (handleBulkGameSelectionChange (CartItem.id Sample.game2) false
                       (bulkSync cart st)) in
  customFieldValues (bulkSync cart unticked) !! "g2_0_uid" = Some "777".
Proof.
  intros cart st unticked.
  assert (customFieldValues unticked !! valueKey "g2" 0 "uid" = Some "777") as <-
    by (vm_compute; reflexivity).
  apply (bulk_sync_leaves_unselected_games cart unticked "g2" 0 "uid").
  - reflexivity.
  - intros item Hin.
    assert (selectedItems cart (bulkSelectedGames unticked) = [Sample.game3]) as Hsel
      by (vm_compute; reflexivity).
    rewrite Hsel in Hin. apply list_elem_of_singleton in Hin as ->. vm_compute. reflexivity.
  - assert (bulkSelectedGames unticked = ["g3"]) as -> by (vm_compute; reflexivity).
    by intros ?%list_elem_of_singleton.
Defined.

(** X19. Running the sync effect again changes nothing: the effect is
    idempotent, whatever the state. *)
Theorem bulkSync_idempotent (cartItems : list CartItem.t) (st : CheckoutState) :
  bulkSync cartItems (bulkSync cartItems st) = bulkSync cartItems st.
Proof.
  rewrite !bulkSync_spec, bulkUpdates_setCustomFieldValues.
  destruct st. simpl. f_equal.
  by rewrite (assoc_L (∪)), (idemp_L (∪)).
Qed.



(** X21. Typing in the input of a field changes the value of that field
    and of no other field of the form: with original ids free of
    underscores, the field at another position or of another game keeps its
    value, and the typed field reads the new value. *)
Theorem field_input_reaches_only_its_field
    (item item' : CartItem.t) (i j : nat) (field field' : CustomField.t)
    (newValue : string) (st : CheckoutState) :
  JsString.includesChar "_" (getOriginalMenuItemId (CartItem.id item)) = false →
  JsString.includesChar "_" (getOriginalMenuItemId (CartItem.id item')) = false →
  (getOriginalMenuItemId (CartItem.id item), i) ≠ (getOriginalMenuItemId (CartItem.id item'), j) →
  let typed := handleFieldInput item i field newValue st in
  customFieldValues typed
    !! valueKey (getOriginalMenuItemId (CartItem.id item)) i (CustomField.key field)
  = Some newValue
  ∧ customFieldValues typed
      !! valueKey (getOriginalMenuItemId (CartItem.id item')) j (CustomField.key field')
    = customFieldValues st
        !! valueKey (getOriginalMenuItemId (CartItem.id item')) j (CustomField.key field').
Proof.
  intros Hid Hid' Hother typed. subst typed. unfold handleFieldInput.
  rewrite customFieldValues_set. split; [by rewrite lookup_insert_eq|].
  apply lookup_insert_ne. intros Hkey.
  apply valueKey_inj in Hkey as (Heq & -> & _); [|done..]. by rewrite Heq in Hother.
Qed.

Lemma field_input_witness :
  let st := handleFieldInput Sample.game2 0 (Sample.field "uid" "User ID" true) "1234"
              (Sample.state None None ∅) in
  let typed := handleFieldInput Sample.game3 0 (Sample.field "uid" "UID" true) "5678" st in
  customFieldValues typed !! "g3_0_uid" = Some "5678"
  ∧ customFieldValues typed !! "g2_0_uid" = Some "1234".
Proof.
  intros st typed.
  destruct (field_input_reaches_only_its_field Sample.game3 Sample.game2 0 0
              (Sample.field "uid" "UID" true) (Sample.field "uid" "User ID" true) "5678" st)
    as [Hown Hother].
  - reflexivity.
  - reflexivity.
  - vm_compute. discriminate.
  - split; [exact Hown|]. etransitivity; [exact Hother|]. vm_compute. reflexivity.
Defined.

End bulk_fan_out.

(** ** Answers that coincide within a game *)

Section combined_labels.

Lemma join_snoc (sep : string) (parts : list string) (p : string) :
  parts ≠ [] → JsString.join sep (parts ++ [p]) = JsString.join sep parts +:+ sep +:+ p.
Proof.
  induction parts as [|q parts IH]; [done|]. intros _.
  destruct parts as [|q' parts]; [done|].
  change (JsString.join sep ((q :: q' :: parts) ++ [p]))
    with (q +:+ sep +:+ JsString.join sep ((q' :: parts) ++ [p])).
  rewrite IH by done.
  change (JsString.join sep (q :: q' :: parts))
    with (q +:+ sep +:+ JsString.join sep (q' :: parts)).
  by rewrite !append_assoc.
Qed.

Lemma lastIndexOf_go_absent (c : ascii) (i : nat) (s : string) :
  JsString.includesChar c s = false → JsString.lastIndexOf_go c i s = None.
Proof.
  revert i. induction s as [|a s IH]; intros i; [done|]. simpl.
  intros [Ha%bool_decide_eq_false Hs]%orb_false_iff.
  rewrite IH by done. by destruct (decide (a = c)).
Qed.

Lemma lastIndexOf_go_last (c : ascii) (i : nat) (a b : string) :
  JsString.includesChar c b = false →
  JsString.lastIndexOf_go c i (a +:+ String c b) = Some (i + String.length a).
Proof.
  intros Hb. revert i. induction a as [|x a IH]; intros i.
  - rewrite append_empty_l. simpl. rewrite lastIndexOf_go_absent by done.
    destruct (decide (c = c)); [|done]. f_equal. lia.
  - rewrite append_cons. simpl. rewrite IH. f_equal. lia.
Qed.

Lemma substring_all (s : string) : String.substring 0 (String.length s) s = s.
Proof. induction s as [|c s IH]; [done|]. simpl. by rewrite IH. Qed.

Lemma substring_append (a b : string) :
  JsString.substring 0 (String.length a) (a +:+ b) = a.
Proof.
  unfold JsString.substring. rewrite Nat.sub_0_r.
  induction a as [|c a IH]; [by destruct b|]. rewrite append_cons. simpl. by rewrite IH.
Qed.

Lemma substringFrom_append (a b : string) :
  JsString.substringFrom (String.length a) (a +:+ b) = b.
Proof.
  unfold JsString.substringFrom. rewrite append_length.
  replace (String.length a + String.length b - String.length a) with (String.length b) by lia.
  induction a as [|c a IH]; [rewrite append_empty_l; apply substring_all|].
  rewrite append_cons. simpl. exact IH.
Qed.

(** X22. When all the answers of a group coincide and there are two or more
    of them, the group is written as one line that joins the labels: the
    last label, if it holds no comma, is attached with an ampersand, and
    the shared value is written once. *)
Theorem coinciding_answers_share_one_line
    (games : list string) (answered : list (string * string))
    (lastLabel value : string) :
  games ≠ [] →
  answered ≠ [] →
  (∀ f, f ∈ answered → f.2 = value) →
  JsString.includesChar "," lastLabel = false →
  JsString.join ", " answered.*1 ≠ "" →
  groupSections games (answered ++ [(lastLabel, value)])
  = [JsString.join LF games;
     JsString.join ", " answered.*1 +:+ " & " +:+ lastLabel +:+ ": " +:+ value].
Proof.
  intros Hgames Hanswered Hsame Hlast Hprefix. unfold groupSections.
  rewrite bool_decide_eq_false_2.
  2:{ rewrite length_app. simpl. intros [Hn%nil_length_inv|Hn]; [done|lia]. }
  assert (default "" (snd <$> (answered ++ [(lastLabel, value)]) !! 0) = value) as ->.
  { destruct answered as [|f answered]; [done|]. simpl. apply Hsame. by left. }
  assert (forallb (λ f : string * string, bool_decide (f.2 = value))
            (answered ++ [(lastLabel, value)]) = true) as ->.
  { rewrite forallb_app. apply andb_true_iff. split.
    - apply forallb_forall. intros f Hf%list_elem_of_In. apply bool_decide_eq_true.
      by apply Hsame.
    - simpl. by rewrite bool_decide_eq_true_2. }
  rewrite bool_decide_eq_true_2.
  2:{ rewrite length_app. simpl. destruct answered; [done|simpl; lia]. }
  simpl andb. cbv iota.
  assert (JsString.join ", " (answered ++ [(lastLabel, value)]).*1
          = JsString.join ", " answered.*1 +:+ String "," (String " " lastLabel)) as ->.
  { rewrite fmap_app. apply join_snoc. by destruct answered. }
  set (prefix := JsString.join ", " answered.*1) in *.
  unfold JsString.lastIndexOf.
  rewrite lastIndexOf_go_last by (simpl; by rewrite Hlast).
  simpl plus.
  rewrite bool_decide_eq_true_2 by (destruct prefix; [done|simpl; lia]).
  rewrite substring_append.
  replace (prefix +:+ String "," (String " " lastLabel))
    with ((prefix +:+ ",") +:+ String " " lastLabel)
    by (by rewrite append_assoc).
  replace (String.length prefix + 1) with (String.length (prefix +:+ ","))
    by (rewrite append_length; simpl; lia).
  rewrite substringFrom_append.
  do 2 f_equal. by rewrite !append_assoc.
Qed.

Lemma coinciding_answers_witness :
  groupSections ["Mobile Legends"] [("User ID", "77"); ("Zone ID", "77"); ("Server", "77")]
  = ["Mobile Legends"; "User ID, Zone ID & Server: 77"].
Proof.
  apply (coinciding_answers_share_one_line ["Mobile Legends"]
           [("User ID", "77"); ("Zone ID", "77")] "Server" "77").
  - discriminate.
  - discriminate.
  - intros f [-> | ->%list_elem_of_singleton]%elem_of_cons; reflexivity.
  - reflexivity.
  - vm_compute. discriminate.
Defined.

End combined_labels.

(** ** The checkout state and the store *)

Section checkout_store.
Context {codecValues : JsonCodec (gmap string string)}.
Context {codecBulk : JsonCodec (list (string * string))}.
Context {codecGames : JsonCodec (list string)}.



(** On a readable store the mirroring leaves the two bulk cells under
    their keys. *)
Lemma persist_accessible_bulk (st : CheckoutState) (s : Storage.t) :
  Storage.accessible s = true →
  ∃ items',
    persist st s = Ok {| Storage.accessible := true; Storage.items := items' |}
    ∧ items' !! CHECKOUT_STORAGE_KEYS.bulkInputValues
      = Some (JSON_stringify (bulkInputValues st))
    ∧ items' !! CHECKOUT_STORAGE_KEYS.bulkSelectedGames
      = Some (JSON_stringify (bulkSelectedGames st)).
Proof.
  destruct s as [acc items]. simpl. intros ->.
  unfold persist, Storage.setItem. simpl.
  destruct (mirrorString_accessible CHECKOUT_STORAGE_KEYS.receiptImageUrl (receiptImageUrl st)
              (<[CHECKOUT_STORAGE_KEYS.customFieldValues
                 := JSON_stringify (customFieldValues st)]> items))
    as (items1 & -> & _ & _).
  simpl.
  destruct (mirrorString_accessible CHECKOUT_STORAGE_KEYS.receiptPreview (receiptPreview st)
              items1)
    as (items2 & -> & _ & _).
  simpl.
  destruct (mirrorString_accessible CHECKOUT_STORAGE_KEYS.paymentMethodUuid
              (paymentMethodUuid st)
              (<[CHECKOUT_STORAGE_KEYS.bulkSelectedGames
                 := JSON_stringify (bulkSelectedGames st)]>
                 (<[CHECKOUT_STORAGE_KEYS.bulkInputValues
                    := JSON_stringify (bulkInputValues st)]> items2)))
    as (items3 & -> & _ & Hframe3).
  exists items3. split; [done|]. split.
  - rewrite Hframe3 by done. rewrite lookup_insert_ne by done. by rewrite lookup_insert_eq.
  - rewrite Hframe3 by done. by rewrite lookup_insert_eq.
Qed.

Lemma readJson_stored {A} `{JsonCodec A} (k : string) (d a : A) (items : gmap string string) :
  json_faithful a →
  items !! k = Some (JSON_stringify a) →
  catch (readJson k d {| Storage.accessible := true; Storage.items := items |}) d = a.
Proof.
  intros [Hne Hparse] Hk. unfold readJson, Storage.getItem. simpl. rewrite Hk. simpl.
  rewrite truthyOpt_Some by done. by rewrite Hparse.
Qed.

(** X24. A reload brings the bulk section back: over a readable store,
    with the three JSON cells stored as texts that parse back to them, the
    field values, the bulk values and the bulk selection come back as they
    were, so the same bulk inputs are shown with the same effect on the
    fields; the pending file, the receipt error and the "message copied"
    flag are not persisted, so the message has to be copied again before
    the messenger button is enabled. *)
Theorem reload_restores_bulk_section (st : CheckoutState) (s : Storage.t) :
  Storage.accessible s = true →
  json_faithful (customFieldValues st) →
  json_faithful (bulkInputValues st) →
  json_faithful (bulkSelectedGames st) →
  ∃ st',
    reload st s = Ok st'
    ∧ customFieldValues st' = customFieldValues st
    ∧ bulkInputValues st' = bulkInputValues st
    ∧ bulkSelectedGames st' = bulkSelectedGames st
    ∧ (∀ cartItems,
         bulkInputFields cartItems st' = bulkInputFields cartItems st
         ∧ showBulkInputs cartItems st' = showBulkInputs cartItems st
         ∧ customFieldValues (bulkSync cartItems st')
           = customFieldValues (bulkSync cartItems st))
    ∧ receiptFile st' = None ∧ receiptError st' = None
    ∧ (∀ uploading, messengerDisabled uploading st' = true).
Proof.
  intros Hacc Hvalues Hbulk Hgames.
  destruct (persist_accessible st s Hacc) as (items' & Hpersist & Hcfv & _).
  destruct (persist_accessible_bulk st s Hacc) as (items'' & Hpersist' & Hbv & Hbs).
  rewrite Hpersist in Hpersist'. injection Hpersist' as <-.
  assert (init_customFieldValues {| Storage.accessible := true; Storage.items := items' |}
          = customFieldValues st) as Hv by (by apply readJson_stored).
  assert (init_bulkInputValues {| Storage.accessible := true; Storage.items := items' |}
          = bulkInputValues st) as Hb by (by apply readJson_stored).
  assert (init_bulkSelectedGames {| Storage.accessible := true; Storage.items := items' |}
          = bulkSelectedGames st) as Hg by (by apply readJson_stored).
  set (st' := {| paymentMethodUuid := items' !! CHECKOUT_STORAGE_KEYS.paymentMethodUuid;
                 showPaymentDetailsModal := false;
                 customFieldValues := customFieldValues st;
                 receiptFile := None;
                 receiptImageUrl := items' !! CHECKOUT_STORAGE_KEYS.receiptImageUrl;
                 receiptPreview := items' !! CHECKOUT_STORAGE_KEYS.receiptPreview;
                 receiptError := None;
                 copied := false;
                 hasCopiedMessage := false;
                 copiedAccountNumber := false;
                 copiedAccountName := false;
                 bulkInputValues := bulkInputValues st;
                 bulkSelectedGames := bulkSelectedGames st;
                 orderId := None;
                 isOrderModalOpen := false;
                 isPlacingOrder := false;
                 existingOrderStatus := None;
                 isCheckingExistingOrder := true |}).
  assert (initialState {| Storage.accessible := true; Storage.items := items' |} = Ok st')
    as Hinit.
  { subst st'. rewrite <- Hv, <- Hb, <- Hg. reflexivity. }
  exists st'. split; [unfold reload; rewrite Hpersist; exact Hinit|].
  split; [done|]. split; [done|]. split; [done|]. split.
  - intros cartItems.
    unfold showBulkInputs, bulkInputFields. split; [done|]. split; [done|].
    rewrite !bulkSync_spec, !customFieldValues_set. done.
  - split; [done|]. split; [done|]. intros uploading.
    unfold messengerDisabled. simpl. by rewrite !orb_true_r.
Qed.

(** X25. Removing the receipt holds over a reload: on a readable store the
    component comes back without a receipt reference and without a preview,
    the file input is shown again and the order stays disabled. *)
Theorem receipt_removal_survives_reload (st : CheckoutState) (s : Storage.t) :
  Storage.accessible s = true →
  ∃ st',
    reload (handleReceiptRemove st) s = Ok st'
    ∧ receiptImageUrl st' = None
    ∧ receiptPreview st' = None
    ∧ showUploadInput st' = true
    ∧ (∀ uploading, placeOrderDisabled uploading st' = true
                    ∧ copyDisabled uploading st' = true).
Proof.
  intros Hacc.
  destruct (persist_accessible (handleReceiptRemove st) s Hacc)
    as (items' & Hpersist & _ & Hru & Hrp & _).
  assert (receiptImageUrl (handleReceiptRemove st) = None) as Hurl by (by destruct st).
  assert (receiptPreview (handleReceiptRemove st) = None) as Hpreview by (by destruct st).
  rewrite Hurl in Hru. rewrite Hpreview in Hrp.
  unfold reload. rewrite Hpersist. simpl.
  unfold initialState, init_receiptImageUrl, init_receiptPreview, Storage.getItem. simpl.
  rewrite Hru, Hrp. simpl.
  eexists. split; [reflexivity|]. simpl. split; [done|]. split; [done|].
  split; [done|]. intros uploading.
  unfold placeOrderDisabled, copyDisabled. simpl.
  split.
  - destruct (negb _); [done|]. simpl. done.
  - by rewrite orb_true_r.
Qed.

Lemma setPaymentMethodUuid_same (st : CheckoutState) :
  setPaymentMethodUuid (paymentMethodUuid st) st = st.
Proof. by destruct st. Qed.

Lemma restorePaymentMethod_saved (env : Env) (st : CheckoutState) (items : gmap string string) :
  (JsString.truthyOpt (items !! CHECKOUT_STORAGE_KEYS.paymentMethodUuid) = true →
   paymentMethodUuid st = items !! CHECKOUT_STORAGE_KEYS.paymentMethodUuid) →
  restorePaymentMethod env st {| Storage.accessible := true; Storage.items := items |} = Ok st.
Proof.
  intros Hsaved. unfold restorePaymentMethod, Storage.getItem. simpl.
  destruct (JsString.truthyOpt (items !! _)) eqn:Htruthy; [|done].
  specialize (Hsaved eq_refl).
  apply truthyOpt_true in Htruthy as (saved & Hitem & _). rewrite Hitem in *. simpl.
  destruct (bool_decide _); [|done].
  destruct (List.find _ _) as [method|] eqn:Hfind; [|done].
  apply find_some in Hfind as [_ Hid%bool_decide_eq_true]. simpl.
  by rewrite Hid, <- Hsaved, setPaymentMethodUuid_same.
Qed.

(** X26. The effect that restores the payment method from the store never
    changes the state: neither right after the component initialised from
    the store, nor after the state was mirrored to it, whatever payment
    methods are loaded. *)
Theorem restorePaymentMethod_changes_nothing (env : Env) (st : CheckoutState) (s : Storage.t) :
  Storage.accessible s = true →
  (∀ st0, initialState s = Ok st0 → restorePaymentMethod env st0 s = Ok st0)
  ∧ (∀ s', persist st s = Ok s' → restorePaymentMethod env st s' = Ok st).
Proof.
  intros Hacc. split.
  - destruct s as [acc items]. simpl in Hacc. subst acc.
    intros st0 [= <-]. by apply restorePaymentMethod_saved.
  - intros s' Hs'. destruct (persist_accessible st s Hacc) as (items' & Hpersist & _ & _ & _ & Hpm).
    rewrite Hpersist in Hs'. injection Hs' as <-.
    apply restorePaymentMethod_saved. rewrite Hpm. unfold stored.
    destruct (JsString.truthyOpt (paymentMethodUuid st)) eqn:Htruthy; [done|].
    intros Hnone. vm_compute in Hnone. discriminate Hnone.
Qed.

End checkout_store.

Lemma reload_restores_bulk_section_witness :
  let st := handleBulkInputChange (pretty 0) "777"
              (handleBulkGameSelectionChange (CartItem.id Sample.game2) true
                 (Sample.state None None {[ "g2_0_uid" := "1" ]})) in
  ∃ st',
    @reload FlatJson.codecValues FlatJson.codecBulk FlatJson.codecGames st Sample.emptyStore
    = Ok st'
    ∧ bulkInputValues st' = [("0", "777")]
    ∧ bulkSelectedGames st' = ["g2"].
Proof.
  intros st.
  destruct (@reload_restores_bulk_section
              FlatJson.codecValues FlatJson.codecBulk FlatJson.codecGames st Sample.emptyStore)
    as (st' & Hreload & _ & Hbulk & Hgames & _).
  - reflexivity.
  - split; [|vm_compute; reflexivity]. intros Hempty. vm_compute in Hempty. discriminate Hempty.
  - split; [|vm_compute; reflexivity]. intros Hempty. vm_compute in Hempty. discriminate Hempty.
  - split; [|vm_compute; reflexivity]. intros Hempty. vm_compute in Hempty. discriminate Hempty.
  - exists st'. split; [exact Hreload|]. split.
    + rewrite Hbulk. vm_compute. reflexivity.
    + rewrite Hgames. vm_compute. reflexivity.
Defined.

Lemma receipt_removal_survives_reload_witness :
  ∃ st',
    @reload FlatJson.codecValues FlatJson.codecBulk FlatJson.codecGames
      (handleReceiptRemove (Sample.state (Some "pm-1") (Some "https://cdn/r.png") ∅))
      {| Storage.accessible := true;
         Storage.items := {[ CHECKOUT_STORAGE_KEYS.receiptImageUrl := "https://cdn/r.png" ]} |}
    = Ok st'
    ∧ receiptImageUrl st' = None.
Proof.
  destruct (@receipt_removal_survives_reload
              FlatJson.codecValues FlatJson.codecBulk FlatJson.codecGames
              (Sample.state (Some "pm-1") (Some "https://cdn/r.png") ∅)
              {| Storage.accessible := true;
                 Storage.items :=
                   {[ CHECKOUT_STORAGE_KEYS.receiptImageUrl := "https://cdn/r.png" ]} |})
    as (st' & Hreload & Hurl & _).
  - reflexivity.
  - exists st'. by split.
Defined.

Lemma restorePaymentMethod_witness :
  let s := {| Storage.accessible := true;
              Storage.items := {[ CHECKOUT_STORAGE_KEYS.paymentMethodUuid := "pm-1" ]} |} in
  ∃ st0,
    @initialState FlatJson.codecValues FlatJson.codecBulk FlatJson.codecGames s = Ok st0
    ∧ restorePaymentMethod (Sample.env [Sample.plain]) st0 s = Ok st0.
Proof.
  intros s. eexists. split; [reflexivity|].
  apply (@restorePaymentMethod_changes_nothing
           FlatJson.codecValues FlatJson.codecBulk FlatJson.codecGames
           (Sample.env [Sample.plain]) (Sample.state None None ∅) s); reflexivity.
Defined.

(** ** What the customer entered, in the message and in the order *)

Section entered_details.




Lemma find_unique {A} (f : A → string) (k : string) (l : list A) (x : A) :
  NoDup (f <$> l) → x ∈ l → f x = k →
  List.find (λ y, bool_decide (Some (f y) = Some k)) l = Some x.
Proof.
  induction l as [|y l IH]; intros Hnd Hin Hk; [by apply elem_of_nil in Hin|].
  rewrite fmap_cons in Hnd. apply NoDup_cons in Hnd as [Hfresh Hnd]. simpl.
  apply elem_of_cons in Hin as [-> |Hin].
  - rewrite bool_decide_eq_true_2; [done|by rewrite Hk].
  - rewrite bool_decide_eq_false_2; [by apply IH|].
    intros [= Hy]. apply Hfresh. rewrite Hy, <- Hk. apply list_elem_of_fmap. by exists x.
Qed.

(** X28. Clicking a payment method selects it: with the methods identified
    uniquely, as their primary key has it, the selected method is the one
    clicked, its details are shown, and the message names it on its
    payment line. *)
Theorem clicked_payment_method_is_named_in_message
    (env : Env) (st : CheckoutState) (method : PaymentMethod.t) :
  method ∈ paymentMethods env →
  NoDup (PaymentMethod.uuid_id <$> paymentMethods env) →
  let clicked := selectPaymentMethod method st in
  selectedPaymentMethod env clicked = Some method
  ∧ showPaymentDetailsModal clicked = true
  ∧ JsString.includes ("💳 Payment: " +:+ PaymentMethod.name method)
      (generateOrderMessage env clicked) = true.
Proof.
  intros Hin Hnd clicked.
  assert (selectedPaymentMethod env clicked = Some method) as Hselected.
  { unfold selectedPaymentMethod.
    assert (paymentMethodUuid clicked = Some (PaymentMethod.uuid_id method)) as ->
      by (by destruct st).
    by apply find_unique. }
  split; [done|]. split; [by destruct st|].
  rewrite generateOrderMessage_template, Hselected. simpl default.
  set (before := customFieldsSection env clicked).
  set (details := JsString.join LF (itemDetails <$> cartItems env)).
  set (total := pretty (totalPrice env)).
  match goal with |- JsString.includes _ ?message = true => replace message with
    (("🛒 Reina Shop ORDER" +:+ LF +:+ LF +:+ before +:+ LF +:+ LF +:+ "📋 ORDER DETAILS:"
      +:+ LF +:+ details +:+ LF +:+ LF +:+ "💰 TOTAL: ₱" +:+ total +:+ LF +:+ LF)
     +:+ ("💳 Payment: " +:+ PaymentMethod.name method)
     +:+ (LF +:+ LF +:+ "📸 Payment Receipt: " +:+ JsString.orEmpty (receiptImageUrl clicked)
          +:+ LF +:+ LF
          +:+ "Please confirm this order to proceed. Thank you for choosing Reina Shop! 🎮"))
    by (by rewrite !append_assoc) end.
  by apply includes_append.
Qed.

Lemma clicked_payment_method_witness :
  JsString.includes "💳 Payment: GCash"
    (generateOrderMessage (Sample.env [Sample.plain])
       (selectPaymentMethod Sample.gcash (Sample.state None None ∅))) = true.
Proof.
  refine (proj2 (proj2 (clicked_payment_method_is_named_in_message
                          (Sample.env [Sample.plain]) (Sample.state None None ∅)
                          Sample.gcash _ _))).
  - by left.
  - apply (bool_decide_unpack _). vm_compute. exact I.
Defined.





End entered_details.
